(** * Catan board generator of [src/components/MainStage.tsx]

    A shallow embedding of [getHexPositions] and of the closures it defines
    ([validateRedAdjacency], [validateResourceDistribution],
    [validateLowNumberClustering], [generateValidAssignment]) together with
    the pip-count computation of [Hexagon].

    JavaScript arrays live in a store and are handled through references, so
    that the in-place Fisher-Yates shuffles and the array copies [[...a]] of
    the source are visible in the model.  [Math.random] is a stream of
    rationals read through a cursor kept in the state; [console.warn]
    appends to a log kept in the state. *)

From Stdlib Require Import ZArith QArith Qround.
From stdpp Require Import base option list strings gmap.

Open Scope string_scope.
Open Scope list_scope.
Open Scope nat_scope.

(** ** Values *)

(** The object literals of the terrain table:
    [{ color: ..., name: ..., texture: ... }]. *)
Record terrain := Terrain {
  color : Z;
  name : string;
  texture : string
}.

#[global] Instance terrain_eq_dec : EqDecision terrain.
Proof. solve_decision. Defined.

(** What an array cell of the generator holds: a number or a terrain object.
    [undefined] is the [None] of a read (see [array_get]). *)
Inductive value :=
  | VNum (n : Z)
  | VObj (t : terrain).

#[global] Instance value_eq_dec : EqDecision value.
Proof. solve_decision. Defined.

(** ** Store, randomness and console *)

Definition loc := nat.

(** An argument of [console.warn]. *)
Inductive log_arg :=
  | LogStr (s : string)
  | LogNum (n : Z).

#[global] Instance log_arg_eq_dec : EqDecision log_arg.
Proof. solve_decision. Defined.

(** [heap]: the arrays allocated so far, a reference being an index in it;
    [draws]: how many values [Math.random] has handed out (a binary number,
    since a run may draw 35035 of them);
    [console]: the calls of [console.warn], oldest first. *)
Record state := State {
  heap : list (list value);
  draws : N;
  console : list (list log_arg)
}.

Definition set_heap (h : list (list value)) (s : state) : state :=
  State h (draws s) (console s).

(** [TypeError]: the exception JavaScript raises when a property of
    [undefined] is read or [undefined] is iterated.
    [OutOfModel]: the run left what this embedding describes: a reference
    that was never allocated, or an array write past the end (JavaScript
    would extend the array there; [floor_times_lt] below shows that the
    generator never does it for draws in [[0,1)]), or the store of
    [undefined] in an array. *)
Inductive error :=
  | TypeError
  | OutOfModel.

Inductive result (A : Type) :=
  | Ok (a : A)
  | Err (e : error).
Arguments Ok {A} a.
Arguments Err {A} e.

#[global] Instance error_eq_dec : EqDecision error.
Proof. solve_decision. Defined.
#[global] Instance result_eq_dec {A} `{EqDecision A} : EqDecision (result A).
Proof. solve_decision. Defined.

#[global] Instance result_ret : MRet result := λ A a, Ok a.
#[global] Instance result_bind : MBind result := λ A B f r,
  match r with
  | Ok a => f a
  | Err e => Err e
  end.

(** State and error monad of the generator. *)
Definition M (A : Type) : Type := state → result (A * state).

#[global] Instance M_ret : MRet M := λ A a s, Ok (a, s).
#[global] Instance M_bind : MBind M := λ A B f m s,
  match m s with
  | Ok (a, s') => f a s'
  | Err e => Err e
  end.

Definition lift {A} (r : result A) : M A := λ s,
  match r with
  | Ok a => Ok (a, s)
  | Err e => Err e
  end.

(** [[...a]] and [new Array(n).fill(v)]: a new array in the store. *)
Definition array_alloc (a : list value) : M loc := λ s,
  Ok (length (heap s), set_heap (heap s ++ [a]) s).

Definition array_read (l : loc) : M (list value) := λ s,
  match heap s !! l with
  | Some a => Ok (a, s)
  | None => Err OutOfModel
  end.

Definition array_copy (l : loc) : M loc :=
  a ← array_read l; array_alloc a.

(** [a.length] *)
Definition array_length (l : loc) : M nat :=
  a ← array_read l; mret (length a).

(** [a[i]]; [None] is [undefined]. *)
Definition array_get (l : loc) (i : nat) : M (option value) :=
  a ← array_read l; mret (a !! i).

(** [a[i] = v], where [v] was read from an array.  Storing [undefined]
    and writing past the end are [OutOfModel]. *)
Definition array_set (l : loc) (i : nat) (v : option value) : M unit := λ s,
  match heap s !! l, v with
  | Some a, Some x =>
      if decide (i < length a)
      then Ok (tt, set_heap (<[l := <[i := x]> a]> (heap s)) s)
      else Err OutOfModel
  | _, _ => Err OutOfModel
  end.

(** [console.warn(...args)] *)
Definition console_warn (args : list log_arg) : M unit := λ s,
  Ok (tt, State (heap s) (draws s) (console s ++ [args])).

(** ** Static tables of [getHexPositions] *)

Definition rowCounts : list nat := [3; 4; 5; 4; 3].

Definition Wood : terrain :=
  Terrain 0x2f4f2f "Wood" "/src/assets/hexes/forest.png".
Definition Wheat : terrain :=
  Terrain 0xe9d1ca "Wheat" "/src/assets/hexes/field.png".
Definition Sheep : terrain :=
  Terrain 0x90ee90 "Sheep" "/src/assets/hexes/pasture.png".
Definition Ore : terrain :=
  Terrain 0x808080 "Ore" "/src/assets/hexes/mountain.png".
Definition Brick : terrain :=
  Terrain 0xd2691e "Brick" "/src/assets/hexes/hill.png".
Definition Desert : terrain :=
  Terrain 0xf4a460 "Desert" "/src/assets/hexes/desert.png".

Definition terrains : list terrain :=
  replicate 4 Wood ++ replicate 4 Wheat ++ replicate 4 Sheep ++
  replicate 3 Ore ++ replicate 3 Brick ++ [Desert].

Definition tokens : list Z :=
  [2; 3; 3; 4; 4; 5; 5; 6; 6; 8; 8; 9; 9; 10; 10; 11; 11; 12]%Z.

Definition adjacencyMap : gmap nat (list nat) :=
  list_to_map [
    (0, [1; 3; 4]);
    (1, [0; 2; 4; 5]);
    (2, [1; 5; 6]);
    (3, [0; 4; 7; 8]);
    (4, [0; 1; 3; 5; 8; 9]);
    (5, [1; 2; 4; 6; 9; 10]);
    (6, [2; 5; 10; 11]);
    (7, [3; 8; 12; 13]);
    (8, [3; 4; 7; 9; 13; 14]);
    (9, [4; 5; 8; 10; 14; 15]);
    (10, [5; 6; 9; 11; 15; 16]);
    (11, [6; 10; 16; 17]);
    (12, [7; 13; 16]);
    (13, [7; 8; 12; 14; 16; 17]);
    (14, [8; 9; 13; 15; 17; 18]);
    (15, [9; 10; 14; 18]);
    (16, [10; 11; 12; 13; 17]);
    (17, [11; 13; 14; 16; 18]);
    (18, [14; 15; 17])
  ].

(** ** Validation functions *)

(** [v.name]: a [TypeError] on [undefined], [undefined] on a number. *)
Definition get_name (v : option value) : result (option string) :=
  match v with
  | None => Err TypeError
  | Some (VObj t) => Ok (Some (name t))
  | Some (VNum _) => Ok None
  end.

(** [token === 6 || token === 8] *)
Definition isRedToken (token : option value) : bool :=
  bool_decide (token = Some (VNum 6)) || bool_decide (token = Some (VNum 8)).

(** The inner loop of [validateRedAdjacency],
    [for (const adjIndex of adjacencyMap[i])]: [Ok true] when it reaches
    the [return false] of the source. *)
Fixpoint redNeighbour (tokenAssignments terrainTypes : list value)
    (adj : list nat) : result bool :=
  match adj with
  | [] => Ok false
  | adjIndex :: adj' =>
      n ← get_name (terrainTypes !! adjIndex);
      if bool_decide (n ≠ Some "Desert")
         && isRedToken (tokenAssignments !! adjIndex)
      then Ok true
      else redNeighbour tokenAssignments terrainTypes adj'
  end.

(** The outer loop of [validateRedAdjacency] over the indices [idxs]. *)
Fixpoint validateRedAdjacency_from (tokenAssignments terrainTypes : list value)
    (idxs : list nat) : result bool :=
  match idxs with
  | [] => Ok true
  | i :: idxs' =>
      n ← get_name (terrainTypes !! i);
      if bool_decide (n = Some "Desert")
      then validateRedAdjacency_from tokenAssignments terrainTypes idxs'
      else if isRedToken (tokenAssignments !! i) then
        match adjacencyMap !! i with
        | None => Err TypeError
        | Some adj =>
            b ← redNeighbour tokenAssignments terrainTypes adj;
            if b : bool then Ok false
            else validateRedAdjacency_from tokenAssignments terrainTypes idxs'
        end
      else validateRedAdjacency_from tokenAssignments terrainTypes idxs'
  end.

Definition validateRedAdjacency (tokenAssignments terrainTypes : list value)
    : result bool :=
  validateRedAdjacency_from tokenAssignments terrainTypes (seq 0 19).

(** The key under which [obj[k]] files a name; [undefined] becomes the
    string "undefined". *)
Definition property_key (n : option string) : string :=
  default "undefined" n.

(** The object [resourceTokens] is made by [{}]: a [gmap] holds its own
    properties, and under the names below a read finds what it inherits
    from [Object.prototype], a function or an object, when it has no own
    property of that name. *)
Definition object_prototype_names : list string :=
  ["constructor"; "__proto__"; "hasOwnProperty"; "isPrototypeOf";
   "propertyIsEnumerable"; "toLocaleString"; "toString"; "valueOf";
   "__defineGetter__"; "__defineSetter__"; "__lookupGetter__";
   "__lookupSetter__"].

(** [if (!resourceTokens[resource]) resourceTokens[resource] = [];
     resourceTokens[resource].push(token);]
    An own array is truthy and receives the token.  Without an own
    property, an inherited value is truthy too, so that no array is
    stored, and it has no [push]: the call raises a [TypeError].
    Otherwise the read gives [undefined] and a new array is stored. *)
Definition push_token (resource : string) (token : option value)
    (resourceTokens : gmap string (list (option value)))
    : result (gmap string (list (option value))) :=
  match resourceTokens !! resource with
  | Some ts => Ok (<[resource := ts ++ [token]]> resourceTokens)
  | None =>
      if bool_decide (resource ∈ object_prototype_names) then Err TypeError
      else Ok (<[resource := [token]]> resourceTokens)
  end.

(** The first loop of [validateResourceDistribution] and of
    [validateLowNumberClustering] (the same text in both). *)
Fixpoint collectResourceTokens (tokenAssignments terrainTypes : list value)
    (idxs : list nat) (resourceTokens : gmap string (list (option value)))
    : result (gmap string (list (option value))) :=
  match idxs with
  | [] => Ok resourceTokens
  | i :: idxs' =>
      n ← get_name (terrainTypes !! i);
      if bool_decide (n = Some "Desert")
      then collectResourceTokens tokenAssignments terrainTypes idxs' resourceTokens
      else
        let resource := property_key n in
        let token := tokenAssignments !! i in
        resourceTokens ← push_token resource token resourceTokens;
        collectResourceTokens tokenAssignments terrainTypes idxs' resourceTokens
  end.

(** [tokens.filter((t) => t === 6).length] and its like for 8. *)
Definition sixCount (ts : list (option value)) : nat :=
  length (filter (λ t, t = Some (VNum 6)) ts).
Definition eightCount (ts : list (option value)) : nat :=
  length (filter (λ t, t = Some (VNum 8)) ts).

(** [tokens.filter((t) => t === 2 || t === 3 || t === 12)] *)
Definition lowNumbers (ts : list (option value)) : list (option value) :=
  filter (λ t, t = Some (VNum 2) ∨ t = Some (VNum 3) ∨ t = Some (VNum 12)) ts.

(** The second loops return [false] at the first resource that fails the
    test, whatever the order of enumeration: the result is [true] exactly
    when every entry passes. *)
Definition validateResourceDistribution
    (tokenAssignments terrainTypes : list value) : result bool :=
  resourceTokens ←
    collectResourceTokens tokenAssignments terrainTypes (seq 0 19) ∅;
  mret (bool_decide (map_Forall
    (λ _ ts, ¬ (1 < sixCount ts ∨ 1 < eightCount ts)) resourceTokens)).

Definition validateLowNumberClustering
    (tokenAssignments terrainTypes : list value) : result bool :=
  resourceTokens ←
    collectResourceTokens tokenAssignments terrainTypes (seq 0 19) ∅;
  mret (bool_decide (map_Forall
    (λ _ ts, ¬ (1 < length (lowNumbers ts))) resourceTokens)).

(** ** The generator *)

Definition maxAttempts : nat := 1000.

(** [Math.floor(r * n)] for a draw [r].  The doubles of JavaScript are
    read as rationals and the product is exact; the proofs use of it only
    that it lies in [[0, n)] for [r] in [[0,1)]. *)
Definition floor_times (r : Q) (n : nat) : nat :=
  Z.to_nat (Qfloor (r * inject_Z (Z.of_nat n))).

Section Generator.
(** The values [Math.random] returns, in the order of the calls. *)
Variable rng : N → Q.
(** The arrays [terrains] and [tokens] the closure captures. *)
Variables terrains_ref tokens_ref : loc.

(** [Math.random()] *)
Definition Math_random : M Q := λ s,
  Ok (rng (draws s), State (heap s) (N.succ (draws s)) (console s)).

(** [Math.floor(Math.random() * n)] *)
Definition random_index (n : nat) : M nat :=
  r ← Math_random;
  mret (floor_times r n).

(** [[a[i], a[j]] = [a[j], a[i]]]: the right-hand side is read first,
    then [a[i]] and [a[j]] are written in this order. *)
Definition swap (a : loc) (i j : nat) : M unit :=
  x ← array_get a j;
  y ← array_get a i;
  array_set a i x;;
  array_set a j y.

(** [for (let i = ...; i > 0; i--) { const j = ...; swap }] from [i]. *)
Fixpoint shuffle_from (a : loc) (i : nat) : M unit :=
  match i with
  | 0 => mret tt
  | S i' =>
      j ← random_index (i + 1);
      swap a i j;;
      shuffle_from a i'
  end.

Definition shuffle (a : loc) : M unit :=
  n ← array_length a;
  shuffle_from a (n - 1).

(** [for (let i = 0; i < 19; i++) if (shuffledTerrains[i].name !== "Desert")
      tokenAssignments[i] = shuffledTokens[tokenIndex++];] *)
Fixpoint assignTokens (shuffledTerrains shuffledTokens tokenAssignments : loc)
    (idxs : list nat) (tokenIndex : nat) : M unit :=
  match idxs with
  | [] => mret tt
  | i :: idxs' =>
      t ← array_get shuffledTerrains i;
      n ← lift (get_name t);
      if bool_decide (n ≠ Some "Desert") then
        v ← array_get shuffledTokens tokenIndex;
        array_set tokenAssignments i v;;
        assignTokens shuffledTerrains shuffledTokens tokenAssignments
          idxs' (S tokenIndex)
      else
        assignTokens shuffledTerrains shuffledTokens tokenAssignments
          idxs' tokenIndex
  end.

(** The two shuffles and the token assignment: the text that opens the
    body of the [while] loop and that the fallback repeats.  The result
    is the pair [(shuffledTerrains, tokenAssignments)]. *)
Definition candidate : M (loc * loc) :=
  shuffledTerrains ← array_copy terrains_ref;
  shuffle shuffledTerrains;;
  shuffledTokens ← array_copy tokens_ref;
  shuffle shuffledTokens;;
  tokenAssignments ← array_alloc (replicate 19 (VNum 0));
  assignTokens shuffledTerrains shuffledTokens tokenAssignments (seq 0 19) 0;;
  mret (shuffledTerrains, tokenAssignments).

(** The condition of the [if]: the three validators under [&&]. *)
Definition validate (c : loc * loc) : M bool :=
  terrainTypes ← array_read c.1;
  tokenAssignments ← array_read c.2;
  b1 ← lift (validateRedAdjacency tokenAssignments terrainTypes);
  if b1 : bool then
    b2 ← lift (validateResourceDistribution tokenAssignments terrainTypes);
    if b2 : bool then
      lift (validateLowNumberClustering tokenAssignments terrainTypes)
    else mret false
  else mret false.

(** [while (attempts < maxAttempts) { ...; attempts++ }], by recursion on
    [maxAttempts - attempts].  [Some c] is the [return] inside the loop,
    [None] the exit of the loop. *)
Fixpoint attempt_loop (remaining : nat) : M (option (loc * loc)) :=
  match remaining with
  | 0 => mret None
  | S remaining' =>
      c ← candidate;
      ok ← validate c;
      if ok : bool then mret (Some c) else attempt_loop remaining'
  end.

Definition fallback_notice : list log_arg :=
  [LogStr "Could not generate valid Catan board after";
   LogNum (Z.of_nat maxAttempts);
   LogStr "attempts"].

(** The result [{ terrains: ..., tokens: ... }] as a pair of references. *)
Definition generateValidAssignment : M (loc * loc) :=
  r ← attempt_loop maxAttempts;
  match r with
  | Some c => mret c
  | None =>
      console_warn fallback_notice;;
      candidate
  end.
End Generator.

(** [getHexPositions] up to the call of [generateValidAssignment]: the two
    tables are built, then the generator runs. *)
Definition getHexPositions (rng : N → Q) : M (loc * loc) :=
  terrains_ref ← array_alloc (VObj <$> terrains);
  tokens_ref ← array_alloc (VNum <$> tokens);
  generateValidAssignment rng terrains_ref tokens_ref.

Definition empty_state : state := State [] 0 [].

(** The contents of the returned arrays. *)
Definition contents (s : state) (c : loc * loc)
    : option (list value * list value) :=
  t ← heap s !! c.1; k ← heap s !! c.2; Some (t, k).

(** ** The renderer's pip count ([Hexagon]) *)

(** [6 - Math.abs(7 - tokenNumber)] *)
Definition dotCount (tokenNumber : Z) : Z := (6 - Z.abs (7 - tokenNumber))%Z.

(** [dotCount === 5] *)
Definition isRed (tokenNumber : Z) : bool := bool_decide (dotCount tokenNumber = 5%Z).

Definition textColor (tokenNumber : Z) : string :=
  if isRed tokenNumber then "#FF0000" else "#000000".

(** ** The hex grid the renderer draws

    [getHexPositions] puts the hex of row [rowIndex] and column [col] at
    [x = startX + col * w] with [startX = -(count - 1) * w / 2] and at
    [z = (rowIndex - 2) * h], where [w = hexWidth * spacingMultiplier] and
    [h = hexHeight * spacingMultiplier = (w / 2) * sqrt 3].  In units of
    [w / 2] for [x] and of [h] for [z] the centres are integers. *)
Definition rowCentres (rowIndex count : nat) : list (Z * Z) :=
  (λ col : nat, (2 * Z.of_nat col - (Z.of_nat count - 1), Z.of_nat rowIndex - 2)%Z)
    <$> seq 0 count.

(** [rowCounts.forEach(...)] with [hexIndex++]: the centres by position
    index. *)
Definition hexCentres : list (Z * Z) :=
  concat (imap rowCentres rowCounts).

(** The squared distance of two centres, in units of [(w / 2)^2]:
    [dx^2 + 3 * dz^2]. *)
Definition dist2 (a b : Z * Z) : Z :=
  ((a.1 - b.1) * (a.1 - b.1) + 3 * ((a.2 - b.2) * (a.2 - b.2)))%Z.

(** Two hexes of the tiling share an edge exactly when their centres are one
    lattice step [w] apart. *)
Definition shares_edge (p q : nat) : bool :=
  match hexCentres !! p, hexCentres !! q with
  | Some a, Some b => bool_decide (dist2 a b = 4%Z)
  | _, _ => false
  end.

Definition grid_neighbours (p : nat) : list nat :=
  filter (λ q, shares_edge p q = true) (seq 0 19).

(** ** Functional reading of the generator

    The arrays a run leaves in the store, as functions of the draws.  The
    proofs below show that the monadic model computes them. *)

(** Exchange of the cells [i] and [j] of a list. *)
Definition list_swap {A} (l : list A) (i j : nat) : list A :=
  match l !! j, l !! i with
  | Some x, Some y => <[j := y]> (<[i := x]> l)
  | _, _ => l
  end.

(** The list [shuffle_from a i] leaves in [a], the cursor being at [k]. *)
Fixpoint fisher_yates {A} (rng : N → Q) (k : N) (i : nat) (l : list A) : list A :=
  match i with
  | 0 => l
  | S i' => fisher_yates rng (N.succ k) i' (list_swap l i (floor_times (rng k) (i + 1)))
  end.

Definition is_desert (v : option value) : bool :=
  bool_decide (get_name v = Ok (Some "Desert")).

(** The array [assignTokens] leaves in [tokenAssignments]. *)
Fixpoint place_tokens (T K : list value) (idxs : list nat) (tokenIndex : nat)
    (A : list value) : list value :=
  match idxs with
  | [] => A
  | i :: idxs' =>
      if is_desert (T !! i) then place_tokens T K idxs' tokenIndex A
      else
        match K !! tokenIndex with
        | Some v => place_tokens T K idxs' (S tokenIndex) (<[i := v]> A)
        | None => A
        end
  end.

(** The three arrays an attempt allocates when the cursor is at [k]: it
    makes 18 draws for the terrains, then 17 for the tokens. *)
Definition shuffled_terrains (rng : N → Q) (k : N) : list value :=
  fisher_yates rng k 18 (VObj <$> terrains).
Definition shuffled_tokens (rng : N → Q) (k : N) : list value :=
  fisher_yates rng (k + 18) 17 (VNum <$> tokens).
Definition token_assignments (rng : N → Q) (k : N) : list value :=
  place_tokens (shuffled_terrains rng k) (shuffled_tokens rng k)
    (seq 0 19) 0 (replicate 19 (VNum 0)).

Definition attempt_arrays (rng : N → Q) (k : N) : list (list value) :=
  [shuffled_terrains rng k; shuffled_tokens rng k; token_assignments rng k].

(** The board built from cursor [k]: terrains and tokens by position. *)
Definition board (rng : N → Q) (k : N) : list value * list value :=
  (shuffled_terrains rng k, token_assignments rng k).

(** The value of the condition [validate] on given contents. *)
Definition all_valid (T A : list value) : result bool :=
  b1 ← validateRedAdjacency A T;
  if b1 : bool then
    b2 ← validateResourceDistribution A T;
    if b2 : bool then validateLowNumberClustering A T else mret false
  else mret false.

Definition accepted (rng : N → Q) (k : N) : bool :=
  bool_decide (all_valid (shuffled_terrains rng k) (token_assignments rng k) = Ok true).

(** How many attempts fail before the first accepted one, among the
    [remaining] attempts that start at cursor [k]. *)
Fixpoint first_accepted (rng : N → Q) (k : N) (remaining : nat) : option nat :=
  match remaining with
  | 0 => None
  | S remaining' =>
      if accepted rng k then Some 0
      else S <$> first_accepted rng (k + 35) remaining'
  end.

(** The arrays [n] successive attempts allocate from cursor [k]. *)
Fixpoint attempts_arrays (rng : N → Q) (k : N) (n : nat) : list (list value) :=
  match n with
  | 0 => []
  | S n' => attempt_arrays rng k ++ attempts_arrays rng (k + 35) n'
  end.

(** The attempts the loop makes from cursor [k]: up to the first accepted
    one, or all of them. *)
Definition attempts_made (rng : N → Q) (k : N) (remaining : nat) : nat :=
  match first_accepted rng k remaining with
  | Some f => S f
  | None => remaining
  end.

(** The references of the [j]-th candidate when the heap had [n] arrays:
    its [shuffledTerrains] and its [tokenAssignments]. *)
Definition candidate_refs (n j : nat) : loc * loc :=
  (n + 3 * j, n + 3 * j + 2).

(** The references the loop returns when the heap had [n] arrays. *)
Definition loop_result (n : nat) (fa : option nat) : option (loc * loc) :=
  candidate_refs n <$> fa.

(** The candidates a run builds from cursor [k]: the attempts up to the
    first accepted one, or all [maxAttempts] of them and the fallback. *)
Definition candidates_made (rng : N → Q) (k : N) : nat :=
  S (default maxAttempts (first_accepted rng k maxAttempts)).

(** The cursor at which the candidate that is returned starts. *)
Definition result_cursor (rng : N → Q) (k : N) : N :=
  (k + 35 * N.of_nat (default maxAttempts (first_accepted rng k maxAttempts)))%N.

(** What a run writes on the console. *)
Definition notices (rng : N → Q) (k : N) : list (list log_arg) :=
  match first_accepted rng k maxAttempts with
  | Some _ => []
  | None => [fallback_notice]
  end.

(** The [shuffledTerrains] and [tokenAssignments] of the candidate built
    last: the last three arrays of the store are its [shuffledTerrains],
    [shuffledTokens] and [tokenAssignments]. *)
Definition last_candidate (s : state) : loc * loc :=
  (length (heap s) - 3, length (heap s) - 1).

(** ** Properties of runs and boards, in the words of the specification *)

(** [Math.random] returns a number in [[0,1)]. *)
Definition unit_range (rng : N → Q) : Prop :=
  ∀ k, (0 <= rng k)%Q ∧ (rng k < 1)%Q.

(** The closure sees the two tables at [terrains_ref] and [tokens_ref]. *)
Definition tables_at (s : state) (terrains_ref tokens_ref : loc) : Prop :=
  heap s !! terrains_ref = Some (VObj <$> terrains) ∧
  heap s !! tokens_ref = Some (VNum <$> tokens).

(** Position [p] holds token [n]. *)
Definition holds (A : list value) (p : nat) (n : Z) : Prop :=
  A !! p = Some (VNum n).

(** The value [new Array(19).fill(0)] puts in every cell: a cell that
    still holds it has received no token. *)
Definition no_token : value := VNum 0.

(** Position [p] has the terrain type [r]. *)
Definition terrain_type (T : list value) (p : nat) (r : string) : Prop :=
  ∃ t, T !! p = Some (VObj t) ∧ name t = r.

Definition red (A : list value) (p : nat) : Prop :=
  holds A p 6 ∨ holds A p 8.

Definition low (A : list value) (p : nat) : Prop :=
  holds A p 2 ∨ holds A p 3 ∨ holds A p 12.

Definition non_desert (T : list value) (p : nat) : Prop :=
  ∃ r, terrain_type T p r ∧ r ≠ "Desert".

(** No position holding 6 or 8 has a non-Desert neighbour holding 6 or 8.
    The neighbours are those of the AdjacencyGraph of the specification:
    the positions whose hexes share an edge with the hex of [p] on the
    3-4-5-4-3 grid. *)
Definition red_apart (T A : list value) : Prop :=
  ∀ p q, red A p → shares_edge p q = true → non_desert T q → ¬ red A q.

(** For every non-Desert terrain type at most one of its positions holds 6
    and at most one holds 8. *)
Definition six_eight_once (T A : list value) : Prop :=
  ∀ r n p q, r ≠ "Desert" → n = 6%Z ∨ n = 8%Z →
    terrain_type T p r → terrain_type T q r →
    holds A p n → holds A q n → p = q.

(** For every non-Desert terrain type at most one of its positions holds a
    token among 2, 3 and 12. *)
Definition low_once (T A : list value) : Prop :=
  ∀ r p q, r ≠ "Desert" →
    terrain_type T p r → terrain_type T q r →
    low A p → low A q → p = q.

(** The tokens on the non-Desert positions, by position index. *)
Definition placed_tokens (T A : list value) : list value :=
  omap (λ p, if is_desert (T !! p) then None else A !! p) (seq 0 19).

(** ** Auxiliary notions for the proofs *)

(** How many of the positions [idxs] are not the Desert. *)
Definition nondeserts (T : list value) (idxs : list nat) : nat :=
  length (filter (λ i, is_desert (T !! i) = false) idxs).

(** Every position of the board carries a terrain object. *)
Definition all_objects (T : list value) : Prop :=
  ∀ i, i < 19 → ∃ t, T !! i = Some (VObj t).

(** No terrain of the board bears a name that [resourceTokens] inherits. *)
Definition plain_names (T : list value) : Prop :=
  ∀ i t, i < 19 → T !! i = Some (VObj t) → name t ∉ object_prototype_names.

(** What [validateRedAdjacency] checks: the red rule with the lists of
    [adjacencyMap] in the place of the neighbours on the grid. *)
Definition red_apart_in_table (T A : list value) : Prop :=
  ∀ p q adj, red A p → adjacencyMap !! p = Some adj → q ∈ adj →
    non_desert T q → ¬ red A q.

(** The key under which the validators file position [i], if any. *)
Definition resource_key (v : option value) : option string :=
  match get_name v with
  | Ok n => if bool_decide (n = Some "Desert") then None else Some (property_key n)
  | Err _ => None
  end.

(** The positions among [idxs] filed under the resource [r]. *)
Definition members (T : list value) (r : string) (idxs : list nat) : list nat :=
  filter (λ i, resource_key (T !! i) = Some r) idxs.

(** ** Sample inputs *)

(** The state in which [getHexPositions] calls the generator when the
    store was empty: [terrains] at reference 0 and [tokens] at 1. *)
Definition init_state : state :=
  State [VObj <$> terrains; VNum <$> tokens] 0 [].

(** A state reached after other work: one more array in the store, five
    draws made, one line on the console. *)
Definition later_state : state :=
  State [[VNum 7]; VObj <$> terrains; VNum <$> tokens] 5 [[LogStr "mounted"]].

Definition rng_zero : N → Q := λ _, 0%Q.

(** A congruential source with values [m / 1000003]. *)
Definition rng_lcg : N → Q := λ k,
  (((1103515245 * Z.of_N k + 12345) * (Z.of_N k + 7)) `mod` 1000003)%Z # 1000003.

(** The congruential source read five places later. *)
Definition rng_lcg_shifted : N → Q := λ k, rng_lcg (k - 5).

(** Zero for the first [35000] draws, a half afterwards. *)
Definition rng_late : N → Q := λ k,
  if (k <? 35000)%N then 0%Q else (1 # 2)%Q.

(** ** Reading a run *)

(** The terrain names and the numbers of a board. *)
Definition board_names (T : list value) : list string :=
  omap (λ v, match v with VObj t => Some (name t) | VNum _ => None end) T.
Definition board_numbers (A : list value) : list Z :=
  omap (λ v, match v with VNum n => Some n | VObj _ => None end) A.

(** What a run returned: names and numbers of the board, draws made,
    lines written on the console. *)
Definition read_result (r : result (loc * loc * state))
    : option (list string * list Z * N * nat) :=
  match r with
  | Ok (c, s) =>
      match contents s c with
      | Some (T, A) =>
          Some (board_names T, board_numbers A, draws s, length (console s))
      | None => None
      end
  | Err _ => None
  end.

(** A run of [getHexPositions] from the empty store. *)
Definition run_getHexPositions (rng : N → Q)
    : option (list string * list Z * N * nat) :=
  read_result (getHexPositions rng empty_state).

(** A run of the fallback branch alone, the cursor being at [k]. *)
Definition run_fallback (rng : N → Q) (k : N)
    : option (list string * list Z * N * nat) :=
  read_result
    ((console_warn (fallback_notice);; candidate rng 0 1)
       (State (heap init_state) k [])).


(** ** Draws that select given indices *)

(** A draw for which [Math.floor(r * n)] is [j]: the middle of the [j]-th
    of the [n] equal parts of [[0,1)]. *)
Definition draw_for (j n : nat) : Q :=
  (2 * Z.of_nat j + 1) # Pos.of_nat (2 * n).

(** The source that hands out, from cursor [k] on, the draws selecting
    the indices [js] for a shuffle that starts at cell [i]. *)
Definition rng_of (k : N) (i : nat) (js : list nat) : N → Q := λ k',
  let t := N.to_nat (k' - k) in
  match js !! t with
  | Some j => draw_for j (i - t + 1)
  | None => 0%Q
  end.

(** The shuffle driven by the selected indices instead of the draws. *)
Fixpoint fy_with {A} (js : list nat) (i : nat) (l : list A) {struct i}
    : list A :=
  match i, js with
  | S i', j :: js' => fy_with js' i' (list_swap l i j)
  | _, _ => l
  end.

(** The indices [js] fit a shuffle that starts at cell [i]: one index for
    each of the cells [i], [i - 1], ..., 1, none past its cell. *)
Definition fits (js : list nat) (i : nat) : Prop :=
  length js = i ∧ ∀ t j, js !! t = Some j → j ≤ i - t.

(** The source of an attempt at cursor [k] whose terrain shuffle selects
    [js1] and whose token shuffle selects [js2]. *)
Definition rng_attempt (k : N) (js1 js2 : list nat) : N → Q := λ k',
  if (k' <? k + 18)%N then rng_of k 18 js1 k' else rng_of (k + 18) 17 js2 k'.


(** A source that repeats, from cursor [k] on and every 35 draws, the
    draws of one attempt that selects [js1] and [js2]. *)
Definition rng_periodic (k : N) (js1 js2 : list nat) : N → Q := λ k',
  rng_attempt k js1 js2 (k + (k' - k) mod 35)%N.

(** Indices for the terrain shuffle and for the token shuffle that put
    an 8 on position 8 and a 6 on position 12. *)
Definition draws_terrains_8_12 : list nat :=
  [14; 3; 13; 2; 13; 7; 11; 10; 1; 3; 0; 3; 3; 5; 1; 3; 0; 1].
Definition draws_tokens_8_12 : list nat :=
  [8; 16; 12; 2; 4; 4; 7; 3; 6; 0; 6; 6; 5; 2; 0; 1; 0].


(** ** The entries [getHexPositions] returns and what [CatanBoard] draws

    The second half of [getHexPositions] reads the two arrays of the
    generator by position index and pushes one entry per hex. *)

(** An entry of [positions].  [pos] is in the integer units of
    [hexCentres]; the height [y = 0.1], the same for every hex, is left
    out.  [tokenNumber] is [None] when [validTokens[hexIndex]] is
    [undefined]. *)
Record hexDatum := HexDatum {
  pos : Z * Z;
  hex_color : Z;
  isDesert : bool;
  tokenNumber : option value;
  texturePath : string
}.

(** The body of the inner loop without [hexIndex++].  [terrain.name] on
    [undefined] is a [TypeError]; a terrain that is a number has no
    colour and no texture, which the entries of this model cannot
    hold. *)
Definition hex_entry (validTerrains validTokens : list value)
    (centre : Z * Z) (hexIndex : nat) : result hexDatum :=
  match validTerrains !! hexIndex with
  | None => Err TypeError
  | Some (VNum _) => Err OutOfModel
  | Some (VObj terrain) =>
      Ok (HexDatum centre (color terrain)
            (bool_decide (name terrain = "Desert"))
            (validTokens !! hexIndex) (texture terrain))
  end.

(** [for (let col = 0; col < count; col++)] over the centres of one row:
    the entries pushed and the value of [hexIndex] after the row. *)
Fixpoint row_entries (validTerrains validTokens : list value)
    (centres : list (Z * Z)) (hexIndex : nat) : result (list hexDatum * nat) :=
  match centres with
  | [] => Ok ([], hexIndex)
  | centre :: centres' =>
      h ← hex_entry validTerrains validTokens centre hexIndex;
      r ← row_entries validTerrains validTokens centres' (S hexIndex);
      Ok (h :: r.1, r.2)
  end.

(** [rowCounts.forEach((count, rowIndex) => ...)] with [hexIndex] running
    through the rows. *)
Fixpoint rows_entries (validTerrains validTokens : list value)
    (rows : list (list (Z * Z))) (hexIndex : nat) : result (list hexDatum) :=
  match rows with
  | [] => Ok []
  | row :: rows' =>
      r ← row_entries validTerrains validTokens row hexIndex;
      hs ← rows_entries validTerrains validTokens rows' r.2;
      Ok (r.1 ++ hs)
  end.

Definition positions (validTerrains validTokens : list value)
    : result (list hexDatum) :=
  rows_entries validTerrains validTokens (imap rowCentres rowCounts) 0.

(** [const hexData = getHexPositions()]: the generator, then the loop
    over the rows. *)
Definition hexData (rng : N → Q) : M (list hexDatum) :=
  c ← getHexPositions rng;
  validTerrains ← array_read c.1;
  validTokens ← array_read c.2;
  lift (positions validTerrains validTokens).





(** [Array.from({ length: dotCount }, (_, index) => ...)]: the [x] of the
    markers, [startOffset + index * spacing] with
    [startOffset = -(dotCount - 1) * spacing / 2], in units of
    [spacing / 2].  A negative length makes the empty array. *)
Definition marker_offsets (tokenNumber : Z) : list Z :=
  (λ index : nat, (- (dotCount tokenNumber - 1) + 2 * Z.of_nat index)%Z)
    <$> seq 0 (Z.to_nat (dotCount tokenNumber)).


(** * Proofs *)

(** ** Running the monad *)

Lemma bind_Ok {A B} (m : M A) (f : A → M B) s a s' :
  m s = Ok (a, s') → (m ≫= f) s = f a s'.
Proof. intros H. unfold mbind, M_bind. by rewrite H. Qed.

(** One step of a run: the first action of a bind returns by [H]. *)
Tactic Notation "mstep" uconstr(H) := rewrite (bind_Ok _ _ _ _ _ H).

Lemma lift_Ok {A} (r : result A) a s : r = Ok a → lift r s = Ok (a, s).
Proof. by intros ->. Qed.

Lemma array_read_Ok l a s :
  heap s !! l = Some a → array_read l s = Ok (a, s).
Proof. intros H. unfold array_read. by rewrite H. Qed.

Lemma array_get_Ok l a i s :
  heap s !! l = Some a → array_get l i s = Ok (a !! i, s).
Proof.
  intros H. unfold array_get. by mstep (array_read_Ok _ _ _ H).
Qed.

Lemma array_length_Ok l a s :
  heap s !! l = Some a → array_length l s = Ok (length a, s).
Proof.
  intros H. unfold array_length.
  by mstep (array_read_Ok _ _ _ H).
Qed.

Lemma array_set_Ok l a i x s :
  heap s !! l = Some a → i < length a →
  array_set l i (Some x) s = Ok (tt, set_heap (<[l := <[i := x]> a]> (heap s)) s).
Proof.
  intros H Hi. unfold array_set. rewrite H. by rewrite decide_True.
Qed.

Lemma array_copy_Ok l a s :
  heap s !! l = Some a →
  array_copy l s = Ok (length (heap s), set_heap (heap s ++ [a]) s).
Proof.
  intros H. unfold array_copy.
  by mstep (array_read_Ok _ _ _ H).
Qed.

Lemma set_heap_id s : set_heap (heap s) s = s.
Proof. by destruct s. Qed.

(** ** The random index stays inside the array *)

Lemma floor_times_lt (r : Q) (n : nat) :
  (0 <= r)%Q → (r < 1)%Q → 0 < n → floor_times r n < n.
Proof.
  intros H0 H1 Hn. unfold floor_times.
  set (q := (r * inject_Z (Z.of_nat n))%Q).
  assert (Hn' : (0 < inject_Z (Z.of_nat n))%Q).
  { rewrite <- (Zlt_Qlt 0). lia. }
  assert (Hq : (q < inject_Z (Z.of_nat n))%Q).
  { unfold q. rewrite <- (Qmult_1_l (inject_Z (Z.of_nat n))) at 2.
    by apply Qmult_lt_compat_r. }
  assert (Hf : (Qfloor q < Z.of_nat n)%Z).
  { rewrite Zlt_Qlt. eapply Qle_lt_trans; [apply Qfloor_le|done]. }
  assert (Hq0 : (0 <= q)%Q).
  { unfold q. apply Qmult_le_0_compat; [done|]. by apply Qlt_le_weak. }
  assert (Hf0 : (0 <= Qfloor q)%Z).
  { change 0%Z with (Qfloor (inject_Z 0)). by apply Qfloor_resp_le. }
  lia.
Qed.

(** ** The shuffle *)

Lemma length_list_swap {A} (l : list A) i j : length (list_swap l i j) = length l.
Proof.
  unfold list_swap. repeat case_match; by rewrite ?length_insert.
Qed.

Lemma list_swap_Permutation {A} (l : list A) i j : list_swap l i j ≡ₚ l.
Proof.
  unfold list_swap.
  destruct (l !! j) as [x|] eqn:Hj; [|done].
  destruct (l !! i) as [y|] eqn:Hi; [|done].
  by apply Permutation_insert_swap.
Qed.

Lemma length_fisher_yates {A} rng k i (l : list A) :
  length (fisher_yates rng k i l) = length l.
Proof.
  revert k l. induction i as [|i IH]; intros k l; [done|].
  simpl. by rewrite IH, length_list_swap.
Qed.

Lemma fisher_yates_Permutation {A} rng k i (l : list A) :
  fisher_yates rng k i l ≡ₚ l.
Proof.
  revert k l. induction i as [|i IH]; intros k l; [done|].
  simpl. by rewrite IH, list_swap_Permutation.
Qed.

(** The shuffled list depends on the draws it consumes only. *)
Lemma fisher_yates_ext {A} rng1 rng2 k1 k2 i (l : list A) :
  (∀ d, (d < N.of_nat i)%N → rng1 (k1 + d)%N = rng2 (k2 + d)%N) →
  fisher_yates rng1 k1 i l = fisher_yates rng2 k2 i l.
Proof.
  revert k1 k2 l. induction i as [|i IH]; intros k1 k2 l H; [done|].
  simpl. pose proof (H 0%N ltac:(lia)) as H0. rewrite !N.add_0_r in H0.
  rewrite H0. apply IH. intros d Hd.
  replace (N.succ k1 + d)%N with (k1 + N.succ d)%N by lia.
  replace (N.succ k2 + d)%N with (k2 + N.succ d)%N by lia.
  apply H. lia.
Qed.

Section Shuffle.
Variable rng : N → Q.
Hypothesis rng_range : unit_range rng.

Lemma swap_Ok a l i j s :
  heap s !! a = Some l → i < length l → j < length l →
  swap a i j s = Ok (tt, set_heap (<[a := list_swap l i j]> (heap s)) s).
Proof.
  intros Ha Hi Hj. unfold swap, list_swap.
  destruct (lookup_lt_is_Some_2 l j Hj) as [x Hx].
  destruct (lookup_lt_is_Some_2 l i Hi) as [y Hy].
  mstep (array_get_Ok _ _ j _ Ha).
  mstep (array_get_Ok _ _ i _ Ha).
  rewrite Hx, Hy.
  mstep (array_set_Ok _ _ _ x _ Ha Hi).
  assert (Hlt : a < length (heap s)) by (by apply lookup_lt_Some in Ha).
  rewrite (array_set_Ok a (<[i := x]> l) j y).
  - unfold set_heap; simpl. by rewrite list_insert_insert_eq.
  - simpl. by rewrite list_lookup_insert_eq.
  - by rewrite length_insert.
Qed.

Lemma shuffle_from_Ok a i : ∀ l s,
  heap s !! a = Some l → i < length l →
  shuffle_from rng a i s =
    Ok (tt, State (<[a := fisher_yates rng (draws s) i l]> (heap s))
                  (draws s + N.of_nat i) (console s)).
Proof.
  induction i as [|i IH]; intros l s Ha Hi.
  - simpl. unfold mret, M_ret. rewrite list_insert_id by done.
    rewrite N.add_0_r. by destruct s.
  - simpl shuffle_from.
    set (j := floor_times (rng (draws s)) (S i + 1)).
    assert (Hj : j < length l).
    { pose proof (rng_range (draws s)) as [H0 H1].
      pose proof (floor_times_lt _ (S i + 1) H0 H1 ltac:(lia)). unfold j. lia. }
    erewrite (bind_Ok (random_index rng (S i + 1))); [|reflexivity].
    fold j.
    erewrite (bind_Ok (swap a (S i) j)); cycle 1.
    { apply (swap_Ok a l); simpl; [done|lia|done]. }
    assert (Hlt : a < length (heap s)) by (by apply lookup_lt_Some in Ha).
    erewrite IH; cycle 1.
    { simpl. by rewrite list_lookup_insert_eq. }
    { rewrite length_list_swap. lia. }
    simpl. rewrite list_insert_insert_eq.
    do 3 f_equal. lia.
Qed.

Lemma shuffle_Ok a l s :
  heap s !! a = Some l → 0 < length l →
  shuffle rng a s =
    Ok (tt, State (<[a := fisher_yates rng (draws s) (length l - 1) l]> (heap s))
                  (draws s + N.of_nat (length l - 1)) (console s)).
Proof.
  intros Ha Hl. unfold shuffle.
  mstep (array_length_Ok _ _ _ Ha).
  apply shuffle_from_Ok; [done|lia].
Qed.
End Shuffle.

(** ** The token assignment *)

Lemma is_desert_eq v n :
  get_name v = Ok n → bool_decide (n = Some "Desert") = is_desert v.
Proof.
  intros H. unfold is_desert. rewrite H.
  apply bool_decide_ext. split; [by intros ->|by intros [= ->]].
Qed.

Lemma is_desert_ne v n :
  get_name v = Ok n → bool_decide (n ≠ Some "Desert") = negb (is_desert v).
Proof.
  intros H. rewrite <- (is_desert_eq v n H).
  by rewrite bool_decide_not.
Qed.

Lemma nondeserts_cons T i idxs :
  nondeserts T (i :: idxs) =
    (if is_desert (T !! i) then 0 else 1) + nondeserts T idxs.
Proof.
  unfold nondeserts. rewrite filter_cons.
  destruct (is_desert (T !! i)); by case_decide.
Qed.

Lemma place_tokens_length T K idxs : ∀ ti A,
  length (place_tokens T K idxs ti A) = length A.
Proof.
  induction idxs as [|i idxs IH]; intros ti A; [done|].
  simpl. destruct (is_desert (T !! i)); [apply IH|].
  destruct (K !! ti); [|done]. by rewrite IH, length_insert.
Qed.

(** A position outside [idxs] keeps its cell. *)
Lemma place_tokens_other T K idxs p : ∀ ti A,
  p ∉ idxs → place_tokens T K idxs ti A !! p = A !! p.
Proof.
  induction idxs as [|i idxs IH]; intros ti A Hp; [done|].
  apply not_elem_of_cons in Hp as [Hpi Hp].
  simpl. destruct (is_desert (T !! i)); [by apply IH|].
  destruct (K !! ti); [|done].
  rewrite IH by done. by apply list_lookup_insert_ne.
Qed.

(** The Desert keeps its cell. *)
Lemma place_tokens_desert T K idxs p : ∀ ti A,
  is_desert (T !! p) = true → place_tokens T K idxs ti A !! p = A !! p.
Proof.
  induction idxs as [|i idxs IH]; intros ti A Hp; [done|].
  simpl. destruct (is_desert (T !! i)) eqn:Hi; [by apply IH|].
  destruct (K !! ti); [|done].
  rewrite IH by done. apply list_lookup_insert_ne. congruence.
Qed.

Section Candidate.
Variable rng : N → Q.
Hypothesis rng_range : unit_range rng.

Lemma assignTokens_Ok tl kl al T K idxs : ∀ ti A s,
  heap s !! tl = Some T → heap s !! kl = Some K → heap s !! al = Some A →
  al ≠ tl → al ≠ kl →
  (∀ i, i ∈ idxs → i < length A ∧ ∃ t, T !! i = Some (VObj t)) →
  ti + nondeserts T idxs ≤ length K →
  assignTokens tl kl al idxs ti s =
    Ok (tt, set_heap (<[al := place_tokens T K idxs ti A]> (heap s)) s).
Proof.
  induction idxs as [|i idxs IH]; intros ti A s HT HK HA Hat Hak Hidx Hcount.
  - simpl. unfold mret, M_ret. rewrite list_insert_id by done.
    by rewrite set_heap_id.
  - destruct (Hidx i ltac:(left)) as [Hi [t Ht]].
    rewrite nondeserts_cons in Hcount.
    simpl assignTokens.
    mstep (array_get_Ok _ _ i _ HT).
    rewrite (bind_Ok (lift (get_name (T !! i))) _ s (Some (name t)) s)
      by (apply lift_Ok; by rewrite Ht).
    rewrite (is_desert_ne (T !! i)) by (by rewrite Ht).
    simpl place_tokens.
    destruct (is_desert (T !! i)); cbn [negb].
    + apply IH; try done. intros j Hj. apply Hidx. by right.
    + destruct (lookup_lt_is_Some_2 K ti ltac:(lia)) as [v Hv].
      mstep (array_get_Ok _ _ ti _ HK).
      rewrite Hv.
      mstep (array_set_Ok _ _ _ v _ HA Hi).
      assert (Hlt : al < length (heap s)) by (by apply lookup_lt_Some in HA).
      rewrite (IH (S ti) (<[i := v]> A)); simpl.
      * by rewrite list_insert_insert_eq.
      * by rewrite list_lookup_insert_ne.
      * by rewrite list_lookup_insert_ne.
      * by rewrite list_lookup_insert_eq.
      * done.
      * done.
      * intros j Hj. rewrite length_insert. apply Hidx. by right.
      * lia.
Qed.
End Candidate.

(** ** One attempt *)

Lemma lookup_snoc {A} (h : list A) x : (h ++ [x]) !! length h = Some x.
Proof. by apply list_lookup_middle. Qed.

Lemma insert_snoc {A} (h : list A) x y : <[length h := y]> (h ++ [x]) = h ++ [y].
Proof. rewrite insert_app_r_alt by lia. by rewrite Nat.sub_diag. Qed.

(** Counting positions through their cells is counting the cells. *)
Lemma filter_seq_lookup {A} (f : option A → bool) (b : bool) (l pre : list A) :
  length (filter (λ i, f ((pre ++ l) !! i) = b) (seq (length pre) (length l))) =
  length (filter (λ x, f (Some x) = b) l).
Proof.
  revert pre. induction l as [|x l IH]; intros pre; [done|].
  cbn [length seq]. rewrite !filter_cons.
  rewrite list_lookup_middle by done.
  specialize (IH (pre ++ [x])).
  rewrite <- app_assoc, length_app in IH. cbn [length app] in IH.
  rewrite Nat.add_1_r in IH.
  destruct (decide (f (Some x) = b)); cbn [length]; by rewrite IH.
Qed.

Lemma filter_seq_lookup0 {A} (f : option A → bool) (b : bool) (l : list A) n :
  length l = n →
  length (filter (λ i, f (l !! i) = b) (seq 0 n)) =
  length (filter (λ x, f (Some x) = b) l).
Proof. intros <-. exact (filter_seq_lookup f b l []). Qed.

Lemma shuffled_terrains_Permutation rng k :
  shuffled_terrains rng k ≡ₚ VObj <$> terrains.
Proof. apply fisher_yates_Permutation. Qed.

Lemma shuffled_tokens_Permutation rng k :
  shuffled_tokens rng k ≡ₚ VNum <$> tokens.
Proof. apply fisher_yates_Permutation. Qed.

Lemma length_shuffled_terrains rng k : length (shuffled_terrains rng k) = 19.
Proof. unfold shuffled_terrains. by rewrite length_fisher_yates. Qed.

Lemma length_shuffled_tokens rng k : length (shuffled_tokens rng k) = 18.
Proof. unfold shuffled_tokens. by rewrite length_fisher_yates. Qed.

Lemma shuffled_terrains_objects rng k : all_objects (shuffled_terrains rng k).
Proof.
  intros i Hi.
  destruct (lookup_lt_is_Some_2 (shuffled_terrains rng k) i) as [v Hv].
  { by rewrite length_shuffled_terrains. }
  assert (HF : Forall (λ v, ∃ t, v = VObj t) (shuffled_terrains rng k)).
  { rewrite shuffled_terrains_Permutation. apply Forall_fmap, Forall_true.
    intros t. by exists t. }
  rewrite Forall_lookup in HF. destruct (HF i v Hv) as [t ->]. by exists t.
Qed.

Lemma terrains_plain : Forall (λ t, name t ∉ object_prototype_names) terrains.
Proof.
  assert (H : bool_decide
            (Forall (λ t, name t ∉ object_prototype_names) terrains) = true)
    by (vm_compute; reflexivity).
  by apply bool_decide_eq_true_1 in H.
Qed.

Lemma shuffled_terrains_plain rng k : plain_names (shuffled_terrains rng k).
Proof.
  intros i t _ Hi.
  assert (HF : Forall (λ v, ∀ t, v = VObj t → name t ∉ object_prototype_names)
                 (shuffled_terrains rng k)).
  { rewrite shuffled_terrains_Permutation. apply Forall_fmap.
    eapply Forall_impl; [apply terrains_plain|].
    intros t' Ht' t'' [= <-]. done. }
  rewrite Forall_lookup in HF. by apply (HF i _ Hi).
Qed.

Lemma nondeserts_shuffled_terrains rng k :
  nondeserts (shuffled_terrains rng k) (seq 0 19) = 18.
Proof.
  unfold nondeserts.
  rewrite (filter_seq_lookup0 is_desert false _ 19)
    by apply length_shuffled_terrains.
  by rewrite shuffled_terrains_Permutation.
Qed.

Lemma length_token_assignments rng k : length (token_assignments rng k) = 19.
Proof. unfold token_assignments. by rewrite place_tokens_length. Qed.

Section Attempt.
Variable rng : N → Q.
Hypothesis rng_range : unit_range rng.
Variables terrains_ref tokens_ref : loc.

(** The run of [candidate] on arbitrary tables [T0] and [K0]. *)
Lemma candidate_run s T0 K0 T K :
  heap s !! terrains_ref = Some T0 → heap s !! tokens_ref = Some K0 →
  0 < length T0 → 0 < length K0 →
  T = fisher_yates rng (draws s) (length T0 - 1) T0 →
  K = fisher_yates rng (draws s + N.of_nat (length T0 - 1))
        (length K0 - 1) K0 →
  all_objects T → nondeserts T (seq 0 19) ≤ length K →
  candidate rng terrains_ref tokens_ref s =
    Ok ((length (heap s), length (heap s) + 2),
        State (heap s ++
               [T; K; place_tokens T K (seq 0 19) 0 (replicate 19 (VNum 0))])
              (draws s + N.of_nat (length T0 - 1) + N.of_nat (length K0 - 1))
              (console s)).
Proof.
  intros HT HK HT0 HK0 HTdef HKdef HTo HTn. unfold candidate.
  set (h := heap s).
  mstep (array_copy_Ok _ _ _ HT).
  erewrite (bind_Ok (shuffle rng _)); cycle 1.
  { apply (shuffle_Ok rng rng_range _ T0); [apply lookup_snoc|done]. }
  cbn [heap draws console set_heap]. fold h. rewrite insert_snoc.
  rewrite <- HTdef.
  erewrite (bind_Ok (array_copy tokens_ref)); cycle 1.
  { apply array_copy_Ok. cbn [heap]. by apply lookup_app_l_Some. }
  cbn [heap draws console set_heap].
  erewrite (bind_Ok (shuffle rng _)); cycle 1.
  { apply (shuffle_Ok rng rng_range _ K0); [apply lookup_snoc|done]. }
  cbn [heap draws console set_heap]. rewrite insert_snoc.
  rewrite <- HKdef.
  erewrite (bind_Ok (array_alloc _)); [|reflexivity].
  cbn [heap draws console set_heap].
  assert (Hl1 : length (h ++ [T]) = length h + 1) by (by rewrite length_app).
  assert (Hl2 : length ((h ++ [T]) ++ [K]) = length h + 2).
  { rewrite length_app, Hl1. simpl. lia. }
  erewrite (bind_Ok (assignTokens _ _ _ _ _)); cycle 1.
  { apply (assignTokens_Ok (length h) (length (h ++ [T]))
             (length ((h ++ [T]) ++ [K])) T K (seq 0 19) 0
             (replicate 19 (VNum 0))); cbn [heap].
    - rewrite <- !app_assoc. by apply list_lookup_middle.
    - apply lookup_app_l_Some, lookup_snoc.
    - apply lookup_snoc.
    - lia.
    - lia.
    - intros i Hi. apply elem_of_seq in Hi. rewrite length_replicate.
      split; [lia|]. apply HTo. lia.
    - lia. }
  cbn [heap draws console set_heap]. rewrite insert_snoc.
  unfold mret, M_ret. by rewrite Hl2, <- !app_assoc.
Qed.

Lemma candidate_Ok s :
  tables_at s terrains_ref tokens_ref →
  candidate rng terrains_ref tokens_ref s =
    Ok ((length (heap s), length (heap s) + 2),
        State (heap s ++ attempt_arrays rng (draws s))
              (draws s + 35) (console s)).
Proof.
  intros [HT HK].
  assert (Hl1 : length (VObj <$> terrains) - 1 = 18) by done.
  assert (Hl2 : length (VNum <$> tokens) - 1 = 17) by done.
  rewrite (candidate_run s (VObj <$> terrains) (VNum <$> tokens)
             (shuffled_terrains rng (draws s))
             (shuffled_tokens rng (draws s)) HT HK).
  - rewrite Hl1, Hl2. unfold attempt_arrays, token_assignments.
    do 3 f_equal. lia.
  - rewrite length_fmap. unfold terrains. rewrite !length_app. simpl. lia.
  - rewrite length_fmap. unfold tokens. simpl. lia.
  - by rewrite Hl1.
  - by rewrite Hl1, Hl2.
  - apply shuffled_terrains_objects.
  - by rewrite nondeserts_shuffled_terrains, length_shuffled_tokens.
Qed.
End Attempt.

(** ** A candidate depends on its 35 draws only *)

Lemma board_ext rng1 rng2 k1 k2 :
  (∀ d, (d < 35)%N → rng1 (k1 + d)%N = rng2 (k2 + d)%N) →
  shuffled_terrains rng1 k1 = shuffled_terrains rng2 k2 ∧
  shuffled_tokens rng1 k1 = shuffled_tokens rng2 k2 ∧
  token_assignments rng1 k1 = token_assignments rng2 k2.
Proof.
  intros H.
  assert (HT : shuffled_terrains rng1 k1 = shuffled_terrains rng2 k2).
  { apply fisher_yates_ext. intros d Hd. apply H. lia. }
  assert (HK : shuffled_tokens rng1 k1 = shuffled_tokens rng2 k2).
  { apply fisher_yates_ext. intros d Hd.
    replace (k1 + 18 + d)%N with (k1 + (18 + d))%N by lia.
    replace (k2 + 18 + d)%N with (k2 + (18 + d))%N by lia.
    apply H. lia. }
  split; [done|]. split; [done|].
  unfold token_assignments. by rewrite HT, HK.
Qed.

Lemma token_assignments_eq rng k :
  token_assignments rng k =
    place_tokens (shuffled_terrains rng k) (shuffled_tokens rng k)
      (seq 0 19) 0 (replicate 19 (VNum 0)).
Proof. reflexivity. Qed.

(** From here on the three arrays of an attempt are handled through the
    lemmas above. *)
#[local] Opaque shuffled_terrains shuffled_tokens token_assignments.

(** ** The validators return on every board of terrain objects *)

Lemma adjacencyMap_bounds i :
  i < 19 → ∃ adj, adjacencyMap !! i = Some adj ∧ Forall (λ q, q < 19) adj.
Proof.
  intros Hi.
  assert (H : Forall (λ i, match adjacencyMap !! i with
                           | Some adj => forallb (λ q, q <? 19) adj = true
                           | None => False
                           end) (seq 0 19)).
  { vm_compute. repeat constructor. }
  rewrite Forall_forall in H. specialize (H i).
  destruct (adjacencyMap !! i) as [adj|];
    [|destruct H; apply elem_of_seq; lia].
  exists adj. split; [done|].
  apply Forall_forall. intros q Hq.
  pose proof (H ltac:(apply elem_of_seq; lia)) as Hb.
  rewrite forallb_forall in Hb. apply Nat.ltb_lt, Hb.
  by apply list_elem_of_In.
Qed.

Lemma get_name_objects T i :
  all_objects T → i < 19 → ∃ t, T !! i = Some (VObj t) ∧
    get_name (T !! i) = Ok (Some (name t)).
Proof. intros HT Hi. destruct (HT i Hi) as [t Ht]. exists t. by rewrite Ht. Qed.

Lemma redNeighbour_total A T adj :
  all_objects T → Forall (λ q, q < 19) adj → ∃ b, redNeighbour A T adj = Ok b.
Proof.
  intros HT. induction 1 as [|q adj Hq _ [b IH]]; [by exists false|].
  destruct (get_name_objects T q HT Hq) as (t & _ & Hn).
  cbn [redNeighbour]. rewrite Hn. cbn [mbind result_bind].
  destruct (_ && _); [by exists true|by exists b].
Qed.

Lemma validateRedAdjacency_from_total A T idxs :
  all_objects T → Forall (λ i, i < 19) idxs →
  ∃ b, validateRedAdjacency_from A T idxs = Ok b.
Proof.
  intros HT. induction 1 as [|i idxs Hi _ [b IH]]; [by exists true|].
  destruct (get_name_objects T i HT Hi) as (t & _ & Hn).
  cbn [validateRedAdjacency_from]. rewrite Hn. cbn [mbind result_bind].
  destruct (bool_decide _); [by exists b|].
  destruct (isRedToken _); [|by exists b].
  destruct (adjacencyMap_bounds i Hi) as (adj & -> & Hadj).
  destruct (redNeighbour_total A T adj HT Hadj) as [b' ->].
  cbn [mbind result_bind]. destruct b'; [by exists false|by exists b].
Qed.

Lemma push_token_plain key tok (m : gmap string (list (option value))) :
  key ∉ object_prototype_names → ∃ m', push_token key tok m = Ok m'.
Proof.
  intros Hk. unfold push_token. destruct (m !! key); [by eexists|].
  rewrite bool_decide_eq_false_2 by done. by eexists.
Qed.

Lemma collectResourceTokens_total A T idxs : ∀ m,
  all_objects T → plain_names T → Forall (λ i, i < 19) idxs →
  ∃ m', collectResourceTokens A T idxs m = Ok m'.
Proof.
  intros m HT HP Hidx. revert m.
  induction Hidx as [|i idxs Hi _ IH]; intros m; [by exists m|].
  destruct (get_name_objects T i HT Hi) as (t & Ht & Hn).
  cbn [collectResourceTokens]. rewrite Hn. cbn [mbind result_bind].
  destruct (bool_decide _); [apply IH|].
  cbv zeta.
  destruct (push_token_plain (property_key (Some (name t))) (A !! i) m)
    as [m' ->]; [by apply (HP i t)|].
  apply IH.
Qed.

Lemma Forall_seq_lt n : Forall (λ i, i < n) (seq 0 n).
Proof. apply Forall_forall. intros i Hi. apply elem_of_seq in Hi. lia. Qed.

Lemma all_valid_total T A :
  all_objects T → plain_names T → ∃ b, all_valid T A = Ok b.
Proof.
  intros HT HP. unfold all_valid, validateRedAdjacency,
    validateResourceDistribution, validateLowNumberClustering.
  destruct (validateRedAdjacency_from_total A T (seq 0 19) HT (Forall_seq_lt 19))
    as [b1 ->].
  destruct (collectResourceTokens_total A T (seq 0 19) ∅ HT HP
              (Forall_seq_lt 19)) as [m ->].
  cbn [mbind result_bind mret result_ret].
  destruct b1; [|by exists false].
  destruct (bool_decide _); [|by exists false].
  by eexists.
Qed.

Lemma validate_Ok c T A b s :
  heap s !! c.1 = Some T → heap s !! c.2 = Some A →
  all_valid T A = Ok b → validate c s = Ok (b, s).
Proof.
  intros HT HA. unfold validate, all_valid.
  mstep (array_read_Ok _ _ _ HT).
  mstep (array_read_Ok _ _ _ HA).
  generalize (validateRedAdjacency A T) (validateResourceDistribution A T)
    (validateLowNumberClustering A T).
  intros [[]|] [[]|] [[]|];
    cbv [mbind mret M_bind M_ret result_bind result_ret lift]; congruence.
Qed.

(** ** The attempt loop *)

Lemma length_attempts_arrays rng n : ∀ k,
  length (attempts_arrays rng k n) = 3 * n.
Proof.
  induction n as [|n IH]; intros k; [done|].
  cbn [attempts_arrays]. rewrite length_app, IH. simpl. lia.
Qed.

Lemma attempts_arrays_snoc rng n : ∀ k,
  attempts_arrays rng k (S n) =
    attempts_arrays rng k n ++ attempt_arrays rng (k + 35 * N.of_nat n).
Proof.
  induction n as [|n IH]; intros k.
  - cbn [attempts_arrays app]. rewrite app_nil_r.
    by replace (k + 35 * N.of_nat 0)%N with k by lia.
  - rewrite (eq_refl : attempts_arrays rng k (S (S n)) =
        attempt_arrays rng k ++ attempts_arrays rng (k + 35) (S n)).
    rewrite IH.
    rewrite (eq_refl : attempts_arrays rng k (S n) =
        attempt_arrays rng k ++ attempts_arrays rng (k + 35) n).
    rewrite <- app_assoc.
    by replace (k + 35 + 35 * N.of_nat n)%N
      with (k + 35 * N.of_nat (S n))%N by lia.
Qed.

Lemma validateRedAdjacency_eq A T :
  validateRedAdjacency A T = validateRedAdjacency_from A T (seq 0 19).
Proof. reflexivity. Qed.

Lemma validateResourceDistribution_eq A T :
  validateResourceDistribution A T =
    resourceTokens ← collectResourceTokens A T (seq 0 19) ∅;
    mret (bool_decide (map_Forall
      (λ _ ts, ¬ (1 < sixCount ts ∨ 1 < eightCount ts)) resourceTokens)).
Proof. reflexivity. Qed.

Lemma validateLowNumberClustering_eq A T :
  validateLowNumberClustering A T =
    resourceTokens ← collectResourceTokens A T (seq 0 19) ∅;
    mret (bool_decide (map_Forall
      (λ _ ts, ¬ (1 < length (lowNumbers ts))) resourceTokens)).
Proof. reflexivity. Qed.

(** Acceptance is the success of the three validators. *)
Lemma all_valid_true T A :
  all_valid T A = Ok true ↔
    validateRedAdjacency A T = Ok true ∧
    validateResourceDistribution A T = Ok true ∧
    validateLowNumberClustering A T = Ok true.
Proof.
  unfold all_valid.
  generalize (validateRedAdjacency A T) (validateResourceDistribution A T)
    (validateLowNumberClustering A T).
  intros [[]|] [[]|] [[]|];
    cbv [mbind mret result_bind result_ret]; intuition congruence.
Qed.

#[local] Opaque validateRedAdjacency validateResourceDistribution
  validateLowNumberClustering all_valid.

Lemma accepted_true rng k :
  accepted rng k = true →
  all_valid (shuffled_terrains rng k) (token_assignments rng k) = Ok true.
Proof. unfold accepted. apply bool_decide_eq_true_1. Qed.

Lemma accepted_false rng k :
  accepted rng k = false →
  all_valid (shuffled_terrains rng k) (token_assignments rng k) = Ok false.
Proof.
  unfold accepted. intros H.
  destruct (all_valid_total _ (token_assignments rng k)
              (shuffled_terrains_objects rng k)
              (shuffled_terrains_plain rng k)) as [b Hb].
  rewrite Hb in H |- *. destruct b; [|reflexivity].
  by rewrite bool_decide_eq_true_2 in H.
Qed.

Section Loop.
Variable rng : N → Q.
Hypothesis rng_range : unit_range rng.
Variables terrains_ref tokens_ref : loc.

Lemma tables_at_app s h d c :
  tables_at s terrains_ref tokens_ref →
  tables_at (State (heap s ++ h) d c) terrains_ref tokens_ref.
Proof. intros [HT HK]. split; by apply lookup_app_l_Some. Qed.

Lemma attempt_loop_Ok remaining : ∀ s,
  tables_at s terrains_ref tokens_ref →
  attempt_loop rng terrains_ref tokens_ref remaining s =
    Ok (loop_result (length (heap s)) (first_accepted rng (draws s) remaining),
        State (heap s ++
               attempts_arrays rng (draws s) (attempts_made rng (draws s) remaining))
              (draws s + 35 * N.of_nat (attempts_made rng (draws s) remaining))
              (console s)).
Proof.
  induction remaining as [|r IH]; intros s Hs.
  - cbn [attempt_loop attempts_made first_accepted attempts_arrays loop_result].
    unfold mret, M_ret. rewrite app_nil_r.
    replace (draws s + 35 * N.of_nat 0)%N with (draws s) by lia.
    by destruct s.
  - cbn [attempt_loop].
    mstep (candidate_Ok rng rng_range _ _ s Hs).
    set (s1 := State (heap s ++ attempt_arrays rng (draws s))
                     (draws s + 35) (console s)).
    assert (HT : heap s1 !! (length (heap s), length (heap s) + 2).1
                 = Some (shuffled_terrains rng (draws s))).
    { by apply list_lookup_middle. }
    assert (HA : heap s1 !! (length (heap s), length (heap s) + 2).2
                 = Some (token_assignments rng (draws s))).
    { cbn [snd heap s1]. rewrite lookup_app_r by lia.
      by replace (length (heap s) + 2 - length (heap s)) with 2 by lia. }
    unfold attempts_made. cbn [first_accepted].
    destruct (accepted rng (draws s)) eqn:Hacc.
    + mstep (validate_Ok _ _ _ _ _ HT HA (accepted_true _ _ Hacc)).
      unfold mret, M_ret. cbn [loop_result fmap option_fmap option_map].
      unfold candidate_refs. cbn [attempts_arrays]. rewrite app_nil_r.
      replace (length (heap s) + 3 * 0) with (length (heap s)) by lia.
      by replace (draws s + 35 * N.of_nat 1)%N with (draws s + 35)%N by lia.
    + mstep (validate_Ok _ _ _ _ _ HT HA (accepted_false _ _ Hacc)).
      rewrite (IH s1) by (by apply tables_at_app).
      cbn [heap draws console s1]. unfold attempts_made.
      assert (Hlen : length (heap s ++ attempt_arrays rng (draws s))
                     = length (heap s) + 3).
      { by rewrite length_app. }
      rewrite Hlen.
      destruct (first_accepted rng (draws s + 35) r) as [f|];
        cbn [loop_result fmap option_fmap option_map attempts_arrays];
        unfold candidate_refs; rewrite <- app_assoc.
      * replace (length (heap s) + 3 + 3 * f) with (length (heap s) + 3 * S f)
          by lia.
        by replace (draws s + 35 + 35 * N.of_nat (S f))%N
          with (draws s + 35 * N.of_nat (S (S f)))%N by lia.
      * by replace (draws s + 35 + 35 * N.of_nat r)%N
          with (draws s + 35 * N.of_nat (S r))%N by lia.
Qed.
End Loop.

(** ** The whole generator *)

Lemma contents_candidate h rng k j d c :
  contents (State (h ++ attempts_arrays rng k (S j)) d c)
           (candidate_refs (length h) j) =
    Some (board rng (k + 35 * N.of_nat j)).
Proof.
  unfold contents, candidate_refs, board. cbn [fst snd heap].
  rewrite attempts_arrays_snoc, app_assoc.
  assert (Hl : length (h ++ attempts_arrays rng k j) = length h + 3 * j).
  { by rewrite length_app, length_attempts_arrays. }
  rewrite !lookup_app_r by lia. rewrite Hl.
  replace (length h + 3 * j - (length h + 3 * j)) with 0 by lia.
  by replace (length h + 3 * j + 2 - (length h + 3 * j)) with 2 by lia.
Qed.

Section Run.
Variable rng : N → Q.
Hypothesis rng_range : unit_range rng.
Variables terrains_ref tokens_ref : loc.

(** The run of the generator, as a function of the draws. *)
Lemma generateValidAssignment_Ok s :
  tables_at s terrains_ref tokens_ref →
  generateValidAssignment rng terrains_ref tokens_ref s =
    Ok (candidate_refs (length (heap s))
          (default maxAttempts (first_accepted rng (draws s) maxAttempts)),
        State (heap s ++
               attempts_arrays rng (draws s) (candidates_made rng (draws s)))
              (draws s + 35 * N.of_nat (candidates_made rng (draws s)))
              (console s ++ notices rng (draws s))).
Proof.
  intros Hs. unfold generateValidAssignment.
  mstep (attempt_loop_Ok rng rng_range _ _ _ s Hs).
  unfold candidates_made, notices, attempts_made.
  destruct (first_accepted rng (draws s) maxAttempts) as [f|];
    cbn [loop_result fmap option_fmap option_map default].
  - unfold mret, M_ret. by rewrite app_nil_r.
  - set (s1 := State (heap s ++ attempts_arrays rng (draws s) maxAttempts)
                 (draws s + 35 * N.of_nat maxAttempts)
                 (console s ++ [fallback_notice])).
    rewrite (bind_Ok (console_warn fallback_notice) _ _ tt s1) by reflexivity.
    rewrite (candidate_Ok rng rng_range _ _ s1) by (by apply tables_at_app).
    cbn [heap draws console s1]. unfold candidate_refs.
    rewrite length_app, length_attempts_arrays.
    rewrite attempts_arrays_snoc, app_assoc.
    by replace (draws s + 35 * N.of_nat maxAttempts + 35)%N
      with (draws s + 35 * N.of_nat (S maxAttempts))%N by lia.
Qed.
End Run.

(** ** Every candidate is a complete board *)

Lemma filter_at_most_one {X} (Q : X → Prop) `{∀ x, Decision (Q x)} (l : list X) p q :
  length (filter Q l) ≤ 1 → p ∈ l → q ∈ l → Q p → Q q → p = q.
Proof.
  assert (Hpos : ∀ l x, x ∈ l → Q x → 0 < length (filter Q l)).
  { intros l' x Hx HQ.
    assert (Hin : x ∈ filter Q l') by (by apply list_elem_of_filter).
    destruct (filter Q l'); [by apply elem_of_nil in Hin|simpl; lia]. }
  induction l as [|a l IH]; intros Hlen Hp Hq HQp HQq.
  { by apply elem_of_nil in Hp. }
  rewrite filter_cons in Hlen.
  apply elem_of_cons in Hp as [->|Hp]; apply elem_of_cons in Hq as [->|Hq].
  - done.
  - rewrite decide_True in Hlen by done. simpl in Hlen.
    pose proof (Hpos l q Hq HQq). lia.
  - rewrite decide_True in Hlen by done. simpl in Hlen.
    pose proof (Hpos l p Hp HQp). lia.
  - apply IH; try done. destruct (decide (Q a)); simpl in Hlen; lia.
Qed.

(** The tokens are laid on the non-Desert positions in the order of the
    shuffled sequence. *)
Lemma placed_place T K idxs : ∀ ti A,
  NoDup idxs → (∀ i, i ∈ idxs → i < length A) →
  ti + nondeserts T idxs ≤ length K →
  omap (λ p, if is_desert (T !! p) then None
             else place_tokens T K idxs ti A !! p) idxs =
    take (nondeserts T idxs) (drop ti K).
Proof.
  induction idxs as [|i idxs IH]; intros ti A Hnd Hlt Hcount; [done|].
  apply NoDup_cons in Hnd as [Hi Hnd].
  rewrite nondeserts_cons in Hcount |- *.
  cbn [omap list_omap place_tokens].
  destruct (is_desert (T !! i)) eqn:Hd.
  - cbn [Nat.add] in Hcount |- *.
    apply IH; [done| |done]. intros j Hj. apply Hlt. by right.
  - destruct (lookup_lt_is_Some_2 K ti ltac:(lia)) as [v Hv]. rewrite Hv.
    rewrite place_tokens_other by done.
    rewrite list_lookup_insert_eq by (apply Hlt; by left).
    rewrite (drop_S K v ti Hv). cbn [Nat.add take]. f_equal.
    apply IH; [done| |lia].
    intros j Hj. rewrite length_insert. apply Hlt. by right.
Qed.

Lemma token_assignments_placed rng k :
  placed_tokens (shuffled_terrains rng k) (token_assignments rng k) =
    shuffled_tokens rng k.
Proof.
  unfold placed_tokens. rewrite token_assignments_eq.
  rewrite placed_place.
  - rewrite nondeserts_shuffled_terrains, drop_0.
    apply take_ge. by rewrite length_shuffled_tokens.
  - apply NoDup_seq.
  - intros i Hi. apply elem_of_seq in Hi. rewrite length_replicate. lia.
  - by rewrite nondeserts_shuffled_terrains, length_shuffled_tokens.
Qed.

Lemma is_desert_terrain_type T p :
  is_desert (T !! p) = true ↔ terrain_type T p "Desert".
Proof.
  unfold is_desert, terrain_type. rewrite bool_decide_eq_true. split.
  - destruct (T !! p) as [[n|t]|]; try done. intros [= H]. by exists t.
  - intros (t & -> & Hn). simpl. by rewrite Hn.
Qed.

(** The Desert cell of a candidate was never written. *)
Lemma token_assignments_desert rng k p :
  terrain_type (shuffled_terrains rng k) p "Desert" →
  token_assignments rng k !! p = Some no_token.
Proof.
  intros Hd. rewrite token_assignments_eq.
  rewrite place_tokens_desert by (by apply is_desert_terrain_type).
  apply lookup_replicate_2.
  destruct Hd as (t & Ht & _). apply lookup_lt_Some in Ht.
  by rewrite length_shuffled_terrains in Ht.
Qed.

Lemma deserts_shuffled_terrains rng k :
  length (filter (λ i, is_desert (shuffled_terrains rng k !! i) = true)
            (seq 0 19)) = 1.
Proof.
  rewrite (filter_seq_lookup0 is_desert true _ 19)
    by apply length_shuffled_terrains.
  by rewrite shuffled_terrains_Permutation.
Qed.

(** Exactly one position of a candidate is the Desert. *)
Lemma one_desert rng k :
  ∃ d, d < 19 ∧ terrain_type (shuffled_terrains rng k) d "Desert" ∧
       ∀ p, terrain_type (shuffled_terrains rng k) p "Desert" → p = d.
Proof.
  pose proof (deserts_shuffled_terrains rng k) as Hc.
  destruct (filter (λ i, is_desert (shuffled_terrains rng k !! i) = true)
              (seq 0 19)) as [|d l] eqn:Hf; [done|].
  assert (Hd : d ∈ filter (λ i, is_desert (shuffled_terrains rng k !! i) = true)
                 (seq 0 19)) by (rewrite Hf; left).
  apply list_elem_of_filter in Hd as [Hd Hin]. apply elem_of_seq in Hin.
  exists d. split; [lia|]. split; [by apply is_desert_terrain_type|].
  intros p Hp.
  apply (filter_at_most_one
           (λ i, is_desert (shuffled_terrains rng k !! i) = true) (seq 0 19)).
  - rewrite Hf, Hc. lia.
  - apply elem_of_seq. destruct Hp as (t & Ht & _).
    apply lookup_lt_Some in Ht. rewrite length_shuffled_terrains in Ht. lia.
  - apply elem_of_seq. lia.
  - by apply is_desert_terrain_type.
  - done.
Qed.

(** ** What an accepted candidate satisfies *)

Lemma redNeighbour_false A T adj :
  redNeighbour A T adj = Ok false →
  ∀ q, q ∈ adj → is_desert (T !! q) = false → isRedToken (A !! q) = false.
Proof.
  induction adj as [|a adj IH]; intros Hr q Hq Hd.
  { by apply elem_of_nil in Hq. }
  cbn [redNeighbour] in Hr.
  destruct (get_name (T !! a)) as [n|e] eqn:Hn; [|done].
  cbv [mbind result_bind] in Hr. rewrite (is_desert_ne _ _ Hn) in Hr.
  destruct (negb (is_desert (T !! a)) && isRedToken (A !! a)) eqn:Hb; [done|].
  apply elem_of_cons in Hq as [->|Hq]; [|by apply IH].
  rewrite Hd in Hb. by destruct (isRedToken (A !! a)).
Qed.

Lemma validateRedAdjacency_from_true A T idxs :
  validateRedAdjacency_from A T idxs = Ok true →
  ∀ p adj q, p ∈ idxs → is_desert (T !! p) = false →
    isRedToken (A !! p) = true → adjacencyMap !! p = Some adj → q ∈ adj →
    is_desert (T !! q) = false → isRedToken (A !! q) = false.
Proof.
  induction idxs as [|i idxs IH]; intros Hv p adj q Hp Hdp Hrp Hadj Hq Hdq.
  { by apply elem_of_nil in Hp. }
  cbn [validateRedAdjacency_from] in Hv.
  destruct (get_name (T !! i)) as [n|e] eqn:Hn; [|done].
  cbv [mbind result_bind] in Hv. rewrite (is_desert_eq _ _ Hn) in Hv.
  apply elem_of_cons in Hp as [->|Hp].
  - rewrite Hdp, Hrp, Hadj in Hv.
    destruct (redNeighbour A T adj) as [[]|] eqn:Hr; try done.
    by apply (redNeighbour_false A T adj Hr).
  - destruct (is_desert (T !! i)); [by eapply IH|].
    destruct (isRedToken (A !! i)); [|by eapply IH].
    destruct (adjacencyMap !! i) as [adj'|]; [|done].
    destruct (redNeighbour A T adj') as [[]|]; try done.
    by eapply IH.
Qed.

Lemma red_isRedToken A p : red A p ↔ isRedToken (A !! p) = true.
Proof.
  unfold red, holds, isRedToken.
  rewrite orb_true_iff, !bool_decide_eq_true. done.
Qed.

Lemma non_desert_is_desert T q : non_desert T q → is_desert (T !! q) = false.
Proof.
  intros (r & (t & Ht & Hn) & Hr). unfold is_desert. rewrite Ht. simpl.
  apply bool_decide_eq_false_2. congruence.
Qed.

Lemma push_token_lookup key tok (m m' : gmap string (list (option value))) r :
  push_token key tok m = Ok m' →
  default [] (m' !! r) =
    default [] (m !! r) ++ (if decide (r = key) then [tok] else []).
Proof.
  unfold push_token. intros Hp.
  destruct (m !! key) as [ts|] eqn:Hm.
  - injection Hp as <-. destruct (decide (r = key)) as [->|Hne].
    + by rewrite lookup_insert_eq, Hm.
    + rewrite lookup_insert_ne by done. by rewrite app_nil_r.
  - destruct (bool_decide (key ∈ object_prototype_names)); [done|].
    injection Hp as <-. destruct (decide (r = key)) as [->|Hne].
    + by rewrite lookup_insert_eq, Hm.
    + rewrite lookup_insert_ne by done. by rewrite app_nil_r.
Qed.

(** What the first loop of the two resource validators collects under each
    key: the tokens of the positions filed under it, by position. *)
Lemma collectResourceTokens_lookup A T idxs : ∀ m m' r,
  collectResourceTokens A T idxs m = Ok m' →
  default [] (m' !! r) =
    default [] (m !! r) ++ ((λ i, A !! i) <$> members T r idxs).
Proof.
  induction idxs as [|i idxs IH]; intros m m' r Hc.
  { cbn in Hc. injection Hc as <-. by rewrite app_nil_r. }
  cbn [collectResourceTokens] in Hc.
  unfold members. rewrite filter_cons.
  destruct (get_name (T !! i)) as [n|e] eqn:Hn; [|done].
  assert (Hk : resource_key (T !! i) =
               if bool_decide (n = Some "Desert") then None
               else Some (property_key n))
    by (unfold resource_key; by rewrite Hn).
  cbv [mbind result_bind] in Hc.
  destruct (bool_decide (n = Some "Desert")).
  - rewrite decide_False by (by rewrite Hk). by apply IH.
  - cbv zeta in Hc.
    destruct (push_token (property_key n) (A !! i) m) as [m1|e] eqn:Hp;
      [|done].
    rewrite (IH _ _ r Hc), (push_token_lookup _ _ _ _ r Hp), <- app_assoc.
    f_equal.
    destruct (decide (r = property_key n)) as [->|Hne].
    + by rewrite decide_True.
    + rewrite decide_False by (rewrite Hk; congruence). done.
Qed.

Lemma length_filter_fmap {X Y} (f : X → Y) (P : Y → Prop)
    `{∀ y, Decision (P y)} (l : list X) :
  length (filter P (f <$> l)) = length (filter (λ x, P (f x)) l).
Proof.
  induction l as [|x l IH]; [done|].
  rewrite fmap_cons, !filter_cons.
  destruct (decide (P (f x))); simpl; by rewrite IH.
Qed.

(** A test that holds of the empty list and of every collected entry
    holds of the tokens of every resource. *)
Lemma collected_Forall (A T : list value) m (P : list (option value) → Prop) r :
  collectResourceTokens A T (seq 0 19) ∅ = Ok m →
  P [] → map_Forall (λ _ ts, P ts) m →
  P ((λ i, A !! i) <$> members T r (seq 0 19)).
Proof.
  intros Hc Hnil HP.
  pose proof (collectResourceTokens_lookup A T _ _ _ r Hc) as Hl.
  rewrite lookup_empty in Hl. cbn [default app] in Hl. rewrite <- Hl.
  destruct (m !! r) as [ts|] eqn:Hm; [|done].
  by apply (HP r ts).
Qed.

Lemma terrain_type_resource_key T p r :
  terrain_type T p r → r ≠ "Desert" → resource_key (T !! p) = Some r.
Proof.
  intros (t & Ht & Hn) Hr. unfold resource_key. rewrite Ht. simpl.
  rewrite bool_decide_eq_false_2 by congruence. by rewrite Hn.
Qed.

Lemma terrain_type_member T p r :
  terrain_type T p r → r ≠ "Desert" → length T = 19 →
  p ∈ members T r (seq 0 19).
Proof.
  intros Ht Hr Hlen. apply list_elem_of_filter. split.
  - by apply terrain_type_resource_key.
  - apply elem_of_seq. destruct Ht as (t & Ht & _).
    apply lookup_lt_Some in Ht. lia.
Qed.

(** At most one member of a resource passes a test that at most one of
    its collected tokens passes. *)
Lemma member_unique (A T : list value) r (P : option value → Prop) `{∀ v, Decision (P v)} p q :
  length (filter P ((λ i, A !! i) <$> members T r (seq 0 19))) ≤ 1 →
  length T = 19 → r ≠ "Desert" →
  terrain_type T p r → terrain_type T q r →
  P (A !! p) → P (A !! q) → p = q.
Proof.
  intros Hlen HT Hr Hp Hq HPp HPq.
  rewrite length_filter_fmap in Hlen.
  apply (filter_at_most_one (λ i, P (A !! i)) (members T r (seq 0 19)));
    try done; by apply terrain_type_member.
Qed.

Lemma validateResourceDistribution_true A T :
  validateResourceDistribution A T = Ok true → length T = 19 →
  six_eight_once T A.
Proof.
  rewrite validateResourceDistribution_eq. intros Hv HT.
  destruct (collectResourceTokens A T (seq 0 19) ∅) as [m|e] eqn:Hc; [|done].
  cbv [mbind result_bind mret result_ret] in Hv.
  injection Hv as Hv. apply bool_decide_eq_true_1 in Hv.
  intros r n p q Hr Hn Hp Hq Hnp Hnq.
  pose proof (collected_Forall A T m
    (λ ts, ¬ (1 < sixCount ts ∨ 1 < eightCount ts)) r Hc) as Hcount.
  cbv beta in Hcount.
  assert (Hle : sixCount ((λ i, A !! i) <$> members T r (seq 0 19)) ≤ 1 ∧
                eightCount ((λ i, A !! i) <$> members T r (seq 0 19)) ≤ 1).
  { assert (Hnil : ¬ (1 < sixCount [] ∨ 1 < eightCount []))
      by (cbn; lia).
    specialize (Hcount Hnil Hv). lia. }
  destruct Hle as [H6 H8]. unfold holds in Hnp, Hnq.
  destruct Hn as [->| ->].
  - by apply (member_unique A T r (λ t, t = Some (VNum 6)) p q).
  - by apply (member_unique A T r (λ t, t = Some (VNum 8)) p q).
Qed.

Lemma validateLowNumberClustering_true A T :
  validateLowNumberClustering A T = Ok true → length T = 19 →
  low_once T A.
Proof.
  rewrite validateLowNumberClustering_eq. intros Hv HT.
  destruct (collectResourceTokens A T (seq 0 19) ∅) as [m|e] eqn:Hc; [|done].
  cbv [mbind result_bind mret result_ret] in Hv.
  injection Hv as Hv. apply bool_decide_eq_true_1 in Hv.
  intros r p q Hr Hp Hq Hlp Hlq.
  pose proof (collected_Forall A T m
    (λ ts, ¬ (1 < length (lowNumbers ts))) r Hc) as Hcount.
  cbv beta in Hcount.
  assert (Hnil : ¬ (1 < length (lowNumbers []))) by (cbn; lia).
  specialize (Hcount Hnil Hv).
  apply (member_unique A T r
    (λ t, t = Some (VNum 2) ∨ t = Some (VNum 3) ∨ t = Some (VNum 12)) p q);
    try done.
  unfold lowNumbers in Hcount. lia.
Qed.

(** The rules an accepted candidate passed, the red rule as the lists of
    [adjacencyMap] have it. *)
Lemma accepted_fair rng k :
  accepted rng k = true →
  red_apart_in_table (shuffled_terrains rng k) (token_assignments rng k) ∧
  six_eight_once (shuffled_terrains rng k) (token_assignments rng k) ∧
  low_once (shuffled_terrains rng k) (token_assignments rng k).
Proof.
  intros Hacc. apply accepted_true, all_valid_true in Hacc as (H1 & H2 & H3).
  pose proof (length_shuffled_terrains rng k) as HT.
  split; [|split].
  - rewrite validateRedAdjacency_eq in H1.
    intros p q adj Hp Hadj Hq Hnd Hrq.
    assert (Hp19 : p ∈ seq 0 19).
    { apply elem_of_seq.
      assert (is_Some (token_assignments rng k !! p)) as Hs
        by (destruct Hp as [-> | ->]; eauto).
      apply lookup_lt_is_Some_1 in Hs.
      rewrite length_token_assignments in Hs. lia. }
    assert (Hdp : is_desert (shuffled_terrains rng k !! p) = false).
    { destruct (is_desert (shuffled_terrains rng k !! p)) eqn:Hd; [|done].
      apply is_desert_terrain_type, token_assignments_desert in Hd.
      destruct Hp as [Hp|Hp]; unfold holds in Hp; by rewrite Hd in Hp. }
    pose proof (validateRedAdjacency_from_true _ _ _ H1 p adj q Hp19 Hdp
                  (proj1 (red_isRedToken _ _) Hp) Hadj Hq
                  (non_desert_is_desert _ _ Hnd)) as Hf.
    apply red_isRedToken in Hrq. congruence.
  - by apply validateResourceDistribution_true.
  - by apply validateLowNumberClustering_true.
Qed.

(** ** Facts on the search for the first accepted attempt *)

Lemma maxAttempts_N : N.of_nat maxAttempts = 1000%N.
Proof. reflexivity. Qed.

Lemma first_accepted_Some rng r : ∀ k f,
  first_accepted rng k r = Some f →
  f < r ∧ accepted rng (k + 35 * N.of_nat f) = true.
Proof.
  induction r as [|r IH]; intros k f Hf; [done|].
  cbn [first_accepted] in Hf.
  destruct (accepted rng k) eqn:Hacc.
  - injection Hf as <-. split; [lia|].
    by replace (k + 35 * N.of_nat 0)%N with k by lia.
  - destruct (first_accepted rng (k + 35) r) as [f'|] eqn:Hf'; [|done].
    injection Hf as <-. destruct (IH _ _ Hf') as [Hlt Ha]. split; [lia|].
    by replace (k + 35 * N.of_nat (S f'))%N
      with (k + 35 + 35 * N.of_nat f')%N by lia.
Qed.

Lemma accepted_ext rng1 rng2 k1 k2 :
  (∀ d, (d < 35)%N → rng1 (k1 + d)%N = rng2 (k2 + d)%N) →
  accepted rng1 k1 = accepted rng2 k2.
Proof.
  intros H. destruct (board_ext rng1 rng2 k1 k2 H) as (HT & _ & HA).
  unfold accepted. by rewrite HT, HA.
Qed.

Lemma first_accepted_ext rng1 rng2 r : ∀ k1 k2,
  (∀ d, (d < 35 * N.of_nat r)%N → rng1 (k1 + d)%N = rng2 (k2 + d)%N) →
  first_accepted rng1 k1 r = first_accepted rng2 k2 r.
Proof.
  induction r as [|r IH]; intros k1 k2 H; [done|].
  cbn [first_accepted].
  rewrite (accepted_ext rng1 rng2 k1 k2) by (intros d Hd; apply H; lia).
  rewrite (IH (k1 + 35)%N (k2 + 35)%N); [done|].
  intros d Hd.
  replace (k1 + 35 + d)%N with (k1 + (35 + d))%N by lia.
  replace (k2 + 35 + d)%N with (k2 + (35 + d))%N by lia.
  apply H. lia.
Qed.

Lemma first_accepted_lt rng k r f : first_accepted rng k r = Some f → f < r.
Proof. intros H. by destruct (first_accepted_Some rng r k f H). Qed.

(** The candidate that is returned, read in the final state. *)
Lemma contents_result rng h k d c :
  contents
    (State (h ++ attempts_arrays rng k (candidates_made rng k)) d c)
    (candidate_refs (length h)
       (default maxAttempts (first_accepted rng k maxAttempts))) =
  Some (board rng (result_cursor rng k)).
Proof. unfold candidates_made, result_cursor. apply contents_candidate. Qed.

Lemma rng_zero_range : unit_range rng_zero.
Proof. intros k. by split. Qed.

Lemma rng_late_range : unit_range rng_late.
Proof. intros k. unfold rng_late. by destruct (k <? 35000)%N. Qed.

Lemma rng_lcg_range : unit_range rng_lcg.
Proof.
  intros k. unfold rng_lcg.
  set (x := ((1103515245 * Z.of_N k + 12345) * (Z.of_N k + 7))%Z).
  pose proof (Z.mod_pos_bound x 1000003 ltac:(lia)) as [H0 H1].
  split.
  - unfold Qle. simpl. lia.
  - unfold Qlt. simpl. lia.
Qed.

(** ** Runs of the model *)

(** [getHexPositions] calls the generator in [init_state]. *)
Lemma getHexPositions_init rng :
  getHexPositions rng empty_state = generateValidAssignment rng 0 1 init_state.
Proof.
  unfold getHexPositions.
  rewrite (bind_Ok (array_alloc (VObj <$> terrains)) _ empty_state 0
             (State [VObj <$> terrains] 0 [])) by reflexivity.
  by rewrite (bind_Ok (array_alloc (VNum <$> tokens)) _ _ 1 init_state).
Qed.

(** With the congruential source the seventh attempt is accepted: 245
    draws, nothing on the console. *)
Example run_getHexPositions_lcg :
  run_getHexPositions rng_lcg =
    Some (["Ore"; "Sheep"; "Wood"; "Wheat"; "Sheep"; "Brick"; "Wood";
           "Brick"; "Ore"; "Wheat"; "Wood"; "Desert"; "Wheat"; "Wheat";
           "Wood"; "Brick"; "Ore"; "Sheep"; "Sheep"],
          [12; 3; 5; 9; 6; 4; 10; 8; 10; 9; 11; 0; 2; 4; 8; 3; 6; 11; 5]%Z,
          245%N, 0).
Proof. vm_compute. reflexivity. Qed.

(** The fallback branch run with [rng_late] from cursor 35000, where the
    1000 rejected attempts leave it. *)
Example run_fallback_late :
  run_fallback rng_late 35000 =
    Some (["Wood"; "Brick"; "Wood"; "Ore"; "Wood"; "Sheep"; "Wood"; "Brick";
           "Wheat"; "Sheep"; "Wheat"; "Ore"; "Wheat"; "Ore"; "Wheat"; "Brick";
           "Sheep"; "Desert"; "Sheep"],
          [2; 12; 3; 10; 3; 9; 4; 11; 4; 8; 5; 9; 5; 10; 6; 11; 6; 0; 8]%Z,
          35035%N, 1).
Proof. vm_compute. reflexivity. Qed.

(** * The claims *)

(** ** Static tables *)

(** C7: the adjacency table is symmetric: whenever [q] is listed among the
    neighbours of [p], [p] is listed among the neighbours of [q]. *)
Theorem adjacencyMap_symmetric p q adj :
  adjacencyMap !! p = Some adj → q ∈ adj →
  ∃ adj', adjacencyMap !! q = Some adj' ∧ p ∈ adj'.
Proof.
  intros Hp Hq.
  assert (H : bool_decide (map_Forall
            (λ p adj, Forall (λ q, p ∈ default [] (adjacencyMap !! q)) adj)
            adjacencyMap) = true) by (vm_compute; reflexivity).
  apply bool_decide_eq_true_1 in H.
  specialize (H p adj Hp). rewrite Forall_forall in H. specialize (H q Hq).
  destruct (adjacencyMap !! q) as [adj'|]; [by exists adj'|].
  by apply elem_of_nil in H.
Qed.

Lemma adjacencyMap_symmetric_witness :
  adjacencyMap !! 7 = Some [3; 8; 12; 13] ∧ 13 ∈ [3; 8; 12; 13] ∧
  ∃ adj', adjacencyMap !! 13 = Some adj' ∧ 7 ∈ adj'.
Proof.
  assert (H7 : adjacencyMap !! 7 = Some [3; 8; 12; 13]) by (by vm_compute).
  assert (H13 : 13 ∈ [3; 8; 12; 13]) by (repeat constructor).
  split; [exact H7|]. split; [exact H13|].
  exact (adjacencyMap_symmetric 7 13 [3; 8; 12; 13] H7 H13).
Defined.

(** C3: the adjacency table is not the edge-sharing relation of the
    3-4-5-4-3 grid that [getHexPositions] lays out.  It agrees with the
    grid at the positions 0 to 6 and 18 only; at position 7 it lists 13,
    a hex that shares no edge with hex 7, and at position 12 it leaves out
    8, a hex that does. *)
Theorem adjacencyMap_differs_from_grid :
  filter (λ p, adjacencyMap !! p = Some (grid_neighbours p)) (seq 0 19)
    = [0; 1; 2; 3; 4; 5; 6; 18] ∧
  adjacencyMap !! 7 = Some [3; 8; 12; 13] ∧
  grid_neighbours 7 = [3; 8; 12] ∧
  shares_edge 7 13 = false ∧
  adjacencyMap !! 12 = Some [7; 13; 16] ∧
  grid_neighbours 12 = [7; 8; 13; 16] ∧
  shares_edge 12 8 = true.
Proof. by vm_compute. Qed.

(** ** The pip count *)

(** C8: the pip count is [6 - |7 - token|]: 1 for 2 and 12, 5 for 6 and 8,
    6 for 7 (which is no token); a token is drawn in red exactly when its
    pip count is 5, that is exactly for 6 and 8. *)
Theorem dotCount_isRed :
  dotCount 2 = 1%Z ∧ dotCount 6 = 5%Z ∧ dotCount 8 = 5%Z ∧
  dotCount 12 = 1%Z ∧ dotCount 7 = 6%Z ∧ (7%Z ∉ tokens) ∧
  (∀ n, dotCount n = (6 - Z.abs (7 - n))%Z) ∧
  (∀ n, isRed n = true ↔ dotCount n = 5%Z) ∧
  (∀ n, isRed n = true ↔ n = 6%Z ∨ n = 8%Z) ∧
  (∀ n, textColor n = "#FF0000" ↔ n = 6%Z ∨ n = 8%Z).
Proof.
  assert (Hred : ∀ n, isRed n = true ↔ n = 6%Z ∨ n = 8%Z).
  { intros n. unfold isRed, dotCount. rewrite bool_decide_eq_true. lia. }
  do 5 (split; [reflexivity|]).
  split.
  { intros H7. unfold tokens in H7.
    repeat (apply elem_of_cons in H7 as [H7|H7]; [lia|]).
    by apply elem_of_nil in H7. }
  split; [done|].
  split.
  { intros n. unfold isRed. by rewrite bool_decide_eq_true. }
  split; [done|].
  intros n. rewrite <- Hred. unfold textColor.
  by destruct (isRed n).
Qed.

(** ** The generator *)

Lemma tables_at_init : tables_at init_state 0 1.
Proof. by split. Qed.

Lemma tables_at_later : tables_at later_state 1 2.
Proof. by split. Qed.

Lemma rng_lcg_shifted_range : unit_range rng_lcg_shifted.
Proof. intros k. apply rng_lcg_range. Qed.

Section Claims.
Variable rng : N → Q.
Hypothesis rng_range : unit_range rng.
Variables terrains_ref tokens_ref : loc.

(** X16: what the validation path does guarantee.  An assignment
    returned from inside the attempt loop, that is, accepted before the
    budget is exhausted, is the one the generator returns, and for every
    source in [[0,1)] no non-Desert terrain type has two positions holding
    6, nor two holding 8, nor two holding a token among 2, 3 and 12; of
    the red rule it meets what the lists of [adjacencyMap] say, which is
    not the rule on the grid. *)
Theorem validated_assignment_passes_table_rules s c s' :
  tables_at s terrains_ref tokens_ref →
  attempt_loop rng terrains_ref tokens_ref maxAttempts s = Ok (Some c, s') →
  generateValidAssignment rng terrains_ref tokens_ref s = Ok (c, s') ∧
  ∃ T A, contents s' c = Some (T, A) ∧
    red_apart_in_table T A ∧ six_eight_once T A ∧ low_once T A.
Proof.
  intros Hs Hloop. split.
  { unfold generateValidAssignment. by mstep Hloop. }
  rewrite (attempt_loop_Ok rng rng_range _ _ _ s Hs) in Hloop.
  unfold attempts_made in Hloop.
  destruct (first_accepted rng (draws s) maxAttempts) as [f|] eqn:Hf;
    [|done].
  cbn [loop_result fmap option_fmap option_map] in Hloop.
  injection Hloop as <- <-.
  destruct (first_accepted_Some rng _ _ _ Hf) as [_ Hacc].
  exists (shuffled_terrains rng (draws s + 35 * N.of_nat f)),
         (token_assignments rng (draws s + 35 * N.of_nat f)).
  split; [apply contents_candidate|]. by apply accepted_fair.
Qed.

(** C2: every assignment the generator returns, from the loop or from
    the fallback, fills the 19 positions with a permutation of the
    terrain table, has exactly one Desert, whose cell holds no token,
    and lays the 18 tokens of the token table, each once, on the 18
    other positions. *)
Theorem assignment_complete s :
  tables_at s terrains_ref tokens_ref →
  ∃ c s' T A,
    generateValidAssignment rng terrains_ref tokens_ref s = Ok (c, s') ∧
    contents s' c = Some (T, A) ∧
    length T = 19 ∧ length A = 19 ∧
    T ≡ₚ VObj <$> terrains ∧
    (∃ d, d < 19 ∧ terrain_type T d "Desert" ∧ A !! d = Some no_token ∧
          ∀ p, terrain_type T p "Desert" → p = d) ∧
    length (placed_tokens T A) = 18 ∧
    placed_tokens T A ≡ₚ VNum <$> tokens.
Proof.
  intros Hs. do 2 eexists.
  exists (shuffled_terrains rng (result_cursor rng (draws s))),
         (token_assignments rng (result_cursor rng (draws s))).
  split; [by apply generateValidAssignment_Ok|].
  split; [apply contents_result|].
  split; [apply length_shuffled_terrains|].
  split; [apply length_token_assignments|].
  split; [apply shuffled_terrains_Permutation|].
  split.
  { destruct (one_desert rng (result_cursor rng (draws s))) as (d & Hd & Ht & Hu).
    exists d. repeat split; try done. by apply token_assignments_desert. }
  rewrite token_assignments_placed.
  split; [apply length_shuffled_tokens|apply shuffled_tokens_Permutation].
Qed.

(** C4, as the code has it: when the 1000 attempts are exhausted the
    generator does not return the candidate of the last attempt.  It
    writes the notice, copies and shuffles the two tables once more with
    the next 35 draws, and returns this new candidate, in newly
    allocated arrays, without validating it and without raising. *)
Theorem fallback_returns_new_candidate s s1 :
  tables_at s terrains_ref tokens_ref →
  attempt_loop rng terrains_ref tokens_ref maxAttempts s = Ok (None, s1) →
  ∃ c s',
    generateValidAssignment rng terrains_ref tokens_ref s = Ok (c, s') ∧
    candidate rng terrains_ref tokens_ref
      (State (heap s1) (draws s1) (console s1 ++ [fallback_notice]))
      = Ok (c, s') ∧
    draws s1 = (draws s + 35000)%N ∧ draws s' = (draws s1 + 35)%N ∧
    c = (length (heap s1), length (heap s1) + 2) ∧
    contents s' c = Some (board rng (draws s1)).
Proof.
  intros Hs Hloop.
  pose proof Hloop as Hloop'.
  rewrite (attempt_loop_Ok rng rng_range _ _ _ s Hs) in Hloop'.
  unfold attempts_made in Hloop'.
  destruct (first_accepted rng (draws s) maxAttempts) as [f|] eqn:Hf;
    [done|].
  apply (f_equal (λ r, match r with Ok (_, x) => x | Err _ => s1 end))
    in Hloop'.
  cbv beta iota in Hloop'. subst s1.
  set (s2 := State (heap s ++ attempts_arrays rng (draws s) maxAttempts)
               (draws s + 35 * N.of_nat maxAttempts)
               (console s ++ [fallback_notice])).
  assert (Hs2 : tables_at s2 terrains_ref tokens_ref)
    by (by apply tables_at_app).
  pose proof (candidate_Ok rng rng_range _ _ s2 Hs2) as Hc.
  do 2 eexists. split; [|split; [exact Hc|]].
  { unfold generateValidAssignment. mstep Hloop.
    by rewrite (bind_Ok (console_warn fallback_notice) _ _ tt s2). }
  cbn [heap draws console s2]. rewrite maxAttempts_N.
  split; [lia|]. split; [done|]. split; [done|].
  pose proof (contents_candidate
    (heap s ++ attempts_arrays rng (draws s) maxAttempts) rng
    (draws s + 35 * 1000)%N 0
    (draws s + 35 * 1000 + 35)%N (console s ++ [fallback_notice])) as Hcont.
  unfold candidate_refs in Hcont. cbn [attempts_arrays] in Hcont.
  rewrite app_nil_r in Hcont.
  replace (draws s + 35 * 1000 + 35 * N.of_nat 0)%N
    with (draws s + 35 * 1000)%N in Hcont by lia.
  by replace (length (heap s ++ attempts_arrays rng (draws s) maxAttempts)
              + 3 * 0)
    with (length (heap s ++ attempts_arrays rng (draws s) maxAttempts))
    in Hcont by lia.
Qed.

(** C5: whatever the draws, the generator returns, without raising:
    it makes at most 1000 attempts and at most one fallback shuffle,
    each of them consuming 35 draws and allocating three arrays. *)
Theorem generator_terminates s :
  tables_at s terrains_ref tokens_ref →
  ∃ c s' attempts fallbacks,
    generateValidAssignment rng terrains_ref tokens_ref s = Ok (c, s') ∧
    1 ≤ attempts ≤ maxAttempts ∧ fallbacks ≤ 1 ∧
    (∃ r s1, attempt_loop rng terrains_ref tokens_ref maxAttempts s
               = Ok (r, s1) ∧
             draws s1 = (draws s + 35 * N.of_nat attempts)%N ∧
             (fallbacks = 1 ↔ r = None)) ∧
    draws s' = (draws s + 35 * N.of_nat (attempts + fallbacks))%N ∧
    length (heap s') = length (heap s) + 3 * (attempts + fallbacks).
Proof.
  intros Hs.
  pose proof (generateValidAssignment_Ok rng rng_range _ _ s Hs) as Hg.
  pose proof (attempt_loop_Ok rng rng_range _ _ maxAttempts s Hs) as Hl.
  unfold candidates_made in Hg. unfold attempts_made in Hl.
  destruct (first_accepted rng (draws s) maxAttempts) as [f|] eqn:Hf.
  - apply first_accepted_lt in Hf. cbn [default] in Hg.
    do 2 eexists. exists (S f), 0. split; [exact Hg|].
    split; [lia|]. split; [lia|]. split.
    { do 2 eexists. split; [exact Hl|]. split; [done|]. split; done. }
    cbn [heap draws]. rewrite Nat.add_0_r, length_app, length_attempts_arrays.
    done.
  - cbn [default] in Hg.
    do 2 eexists. exists maxAttempts, 1. split; [exact Hg|].
    split; [unfold maxAttempts; lia|]. split; [lia|]. split.
    { do 2 eexists. split; [exact Hl|]. split; [done|]. split; done. }
    cbn [heap draws]. rewrite Nat.add_1_r, length_app, length_attempts_arrays.
    done.
Qed.

(** C6: the notice is written exactly once, and names the 1000 attempts
    made, when the loop ends with its budget exhausted; nothing is
    written when the loop returns an accepted candidate; the generator
    raises in neither case. *)
Theorem notice_iff_exhausted s :
  tables_at s terrains_ref tokens_ref →
  ∃ r s1 c s',
    attempt_loop rng terrains_ref tokens_ref maxAttempts s = Ok (r, s1) ∧
    generateValidAssignment rng terrains_ref tokens_ref s = Ok (c, s') ∧
    console s1 = console s ∧
    match r with
    | None =>
        draws s1 = (draws s + 35 * 1000)%N ∧
        console s' = console s ++
          [[LogStr "Could not generate valid Catan board after";
            LogNum 1000; LogStr "attempts"]]
    | Some c0 => c = c0 ∧ s' = s1 ∧ console s' = console s
    end.
Proof.
  intros Hs.
  pose proof (generateValidAssignment_Ok rng rng_range _ _ s Hs) as Hg.
  pose proof (attempt_loop_Ok rng rng_range _ _ maxAttempts s Hs) as Hl.
  unfold candidates_made, notices in Hg. unfold attempts_made in Hl.
  do 4 eexists. split; [exact Hl|]. split; [exact Hg|].
  split; [done|].
  destruct (first_accepted rng (draws s) maxAttempts) as [f|];
    cbn [loop_result fmap option_fmap option_map default heap draws console].
  - split; [done|]. by rewrite app_nil_r.
  - by rewrite maxAttempts_N.
Qed.

(** C10: the generator writes to arrays it has allocated itself only:
    every array of the store is left as it was, the two tables among
    them, and the arrays it returns are new.  A further call therefore
    finds the full tables again and returns a complete board built from
    its own draws. *)
Theorem tables_unchanged s :
  tables_at s terrains_ref tokens_ref →
  ∃ c s',
    generateValidAssignment rng terrains_ref tokens_ref s = Ok (c, s') ∧
    (∃ new, heap s' = heap s ++ new) ∧
    (∀ l a, heap s !! l = Some a → heap s' !! l = Some a) ∧
    tables_at s' terrains_ref tokens_ref ∧
    length (heap s) ≤ c.1 ∧ length (heap s) ≤ c.2 ∧
    ∃ c2 s2 T2 A2,
      generateValidAssignment rng terrains_ref tokens_ref s' = Ok (c2, s2) ∧
      contents s2 c2 = Some (T2, A2) ∧
      (T2, A2) = board rng (result_cursor rng (draws s')) ∧
      T2 ≡ₚ VObj <$> terrains ∧
      placed_tokens T2 A2 ≡ₚ VNum <$> tokens ∧
      tables_at s2 terrains_ref tokens_ref.
Proof.
  intros Hs.
  pose proof (generateValidAssignment_Ok rng rng_range _ _ s Hs) as Hg.
  set (c := candidate_refs (length (heap s))
              (default maxAttempts (first_accepted rng (draws s) maxAttempts)))
    in Hg.
  set (s' := State (heap s ++ attempts_arrays rng (draws s)
                                (candidates_made rng (draws s)))
               (draws s + 35 * N.of_nat (candidates_made rng (draws s)))
               (console s ++ notices rng (draws s))) in Hg.
  assert (Hs' : tables_at s' terrains_ref tokens_ref)
    by (by apply tables_at_app).
  exists c, s'. split; [exact Hg|].
  split; [by eexists|].
  split; [intros l a Hl; by apply lookup_app_l_Some|].
  split; [exact Hs'|].
  split; [unfold c, candidate_refs; cbn [fst]; lia|].
  split; [unfold c, candidate_refs; cbn [snd]; lia|].
  pose proof (generateValidAssignment_Ok rng rng_range _ _ s' Hs') as Hg2.
  eexists _, _, (shuffled_terrains rng (result_cursor rng (draws s'))),
    (token_assignments rng (result_cursor rng (draws s'))).
  split; [exact Hg2|].
  split; [exact (contents_result rng (heap s') (draws s') _ _)|].
  split; [reflexivity|].
  split; [apply shuffled_terrains_Permutation|].
  split; [|by apply tables_at_app].
  rewrite token_assignments_placed. apply shuffled_tokens_Permutation.
Qed.
End Claims.

(** C9: the generator is a function of the draws it consumes.  Two runs
    whose randomness sources hand out the same values, over the at most
    35035 draws a run can make, return the same board (the same terrain
    and the same token at every position), consume the same number of
    draws and write the same diagnostics, whatever the store, the cursor
    and the console they start from. *)
Theorem generator_deterministic rng1 rng2 t1 k1 t2 k2 s1 s2 :
  unit_range rng1 → unit_range rng2 →
  tables_at s1 t1 k1 → tables_at s2 t2 k2 →
  (∀ d, (d < 35035)%N → rng1 (draws s1 + d)%N = rng2 (draws s2 + d)%N) →
  ∃ c1 s1' c2 s2' B n log,
    generateValidAssignment rng1 t1 k1 s1 = Ok (c1, s1') ∧
    generateValidAssignment rng2 t2 k2 s2 = Ok (c2, s2') ∧
    contents s1' c1 = Some B ∧ contents s2' c2 = Some B ∧
    draws s1' = (draws s1 + n)%N ∧ draws s2' = (draws s2 + n)%N ∧
    console s1' = console s1 ++ log ∧ console s2' = console s2 ++ log.
Proof.
  intros Hr1 Hr2 Hs1 Hs2 Hrng.
  pose proof (generateValidAssignment_Ok rng1 Hr1 _ _ s1 Hs1) as Hg1.
  pose proof (generateValidAssignment_Ok rng2 Hr2 _ _ s2 Hs2) as Hg2.
  assert (Hfa : first_accepted rng1 (draws s1) maxAttempts =
                first_accepted rng2 (draws s2) maxAttempts).
  { apply first_accepted_ext. intros d Hd. apply Hrng.
    rewrite maxAttempts_N in Hd. lia. }
  set (j := default maxAttempts (first_accepted rng1 (draws s1) maxAttempts)).
  assert (Hj : (N.of_nat j <= 1000)%N).
  { unfold j. destruct (first_accepted rng1 (draws s1) maxAttempts) as [f|] eqn:Hf.
    - apply first_accepted_lt in Hf. cbn [default]. unfold id.
      rewrite <- maxAttempts_N. lia.
    - cbn [default]. by rewrite maxAttempts_N. }
  assert (HB : board rng1 (result_cursor rng1 (draws s1)) =
               board rng2 (result_cursor rng2 (draws s2))).
  { unfold result_cursor. rewrite <- Hfa. fold j.
    destruct (board_ext rng1 rng2 (draws s1 + 35 * N.of_nat j)
                (draws s2 + 35 * N.of_nat j)) as (HT & _ & HA).
    - intros d Hd.
      replace (draws s1 + 35 * N.of_nat j + d)%N
        with (draws s1 + (35 * N.of_nat j + d))%N by lia.
      replace (draws s2 + 35 * N.of_nat j + d)%N
        with (draws s2 + (35 * N.of_nat j + d))%N by lia.
      apply Hrng. lia.
    - unfold board. by rewrite HT, HA. }
  eexists _, _, _, _, (board rng1 (result_cursor rng1 (draws s1))),
    (35 * N.of_nat (candidates_made rng1 (draws s1)))%N,
    (notices rng1 (draws s1)).
  split; [exact Hg1|]. split; [exact Hg2|].
  split; [apply contents_result|].
  split; [rewrite HB; apply contents_result|].
  split; [done|].
  split; [unfold candidates_made; by rewrite Hfa|].
  split; [done|].
  unfold notices. by rewrite Hfa.
Qed.

(** ** The claims at sample inputs *)

Lemma validated_assignment_passes_table_rules_witness :
  ∃ c s',
    attempt_loop rng_lcg 0 1 maxAttempts init_state = Ok (Some c, s') ∧
    generateValidAssignment rng_lcg 0 1 init_state = Ok (c, s') ∧
    ∃ T A, contents s' c = Some (T, A) ∧
      red_apart_in_table T A ∧ six_eight_once T A ∧ low_once T A.
Proof.
  destruct (attempt_loop rng_lcg 0 1 maxAttempts init_state)
    as [[[c|] s']|e] eqn:Hl.
  - exists c, s'. split; [reflexivity|].
    exact (validated_assignment_passes_table_rules rng_lcg rng_lcg_range 0 1
             init_state c s' tables_at_init Hl).
  - vm_compute in Hl. discriminate Hl.
  - vm_compute in Hl. discriminate Hl.
Defined.

Lemma assignment_complete_witness :
  ∃ c s' T A,
    generateValidAssignment rng_zero 0 1 init_state = Ok (c, s') ∧
    contents s' c = Some (T, A) ∧
    length T = 19 ∧ length A = 19 ∧
    T ≡ₚ VObj <$> terrains ∧
    (∃ d, d < 19 ∧ terrain_type T d "Desert" ∧ A !! d = Some no_token ∧
          ∀ p, terrain_type T p "Desert" → p = d) ∧
    length (placed_tokens T A) = 18 ∧
    placed_tokens T A ≡ₚ VNum <$> tokens.
Proof.
  exact (assignment_complete rng_zero rng_zero_range 0 1 init_state
           tables_at_init).
Defined.

Lemma first_accepted_rng_zero :
  first_accepted rng_zero (draws init_state) maxAttempts = None.
Proof. vm_compute. reflexivity. Qed.

Lemma first_accepted_rng_late :
  first_accepted rng_late (draws init_state) maxAttempts = None.
Proof. vm_compute. reflexivity. Qed.

(** The loop on a source that leaves every attempt rejected. *)
Lemma attempt_loop_exhausted rng :
  unit_range rng →
  first_accepted rng (draws init_state) maxAttempts = None →
  attempt_loop rng 0 1 maxAttempts init_state =
    Ok (None,
        State (heap init_state ++ attempts_arrays rng 0 maxAttempts)
              (35 * N.of_nat maxAttempts) (console init_state)).
Proof.
  intros Hr Hf.
  rewrite (attempt_loop_Ok rng Hr 0 1 maxAttempts init_state tables_at_init).
  unfold attempts_made. by rewrite Hf.
Qed.

Lemma fallback_returns_new_candidate_witness :
  ∃ s1,
    attempt_loop rng_zero 0 1 maxAttempts init_state = Ok (None, s1) ∧
    ∃ c s',
      generateValidAssignment rng_zero 0 1 init_state = Ok (c, s') ∧
      candidate rng_zero 0 1
        (State (heap s1) (draws s1) (console s1 ++ [fallback_notice]))
        = Ok (c, s') ∧
      draws s1 = (draws init_state + 35000)%N ∧ draws s' = (draws s1 + 35)%N ∧
      c = (length (heap s1), length (heap s1) + 2) ∧
      contents s' c = Some (board rng_zero (draws s1)).
Proof.
  pose proof (attempt_loop_exhausted rng_zero rng_zero_range
                first_accepted_rng_zero) as Hl.
  eexists. split; [exact Hl|].
  exact (fallback_returns_new_candidate rng_zero rng_zero_range 0 1
           init_state _ tables_at_init Hl).
Defined.

Lemma generator_terminates_witness :
  ∃ c s' attempts fallbacks,
    generateValidAssignment rng_lcg 0 1 init_state = Ok (c, s') ∧
    1 ≤ attempts ≤ maxAttempts ∧ fallbacks ≤ 1 ∧
    (∃ r s1, attempt_loop rng_lcg 0 1 maxAttempts init_state = Ok (r, s1) ∧
             draws s1 = (draws init_state + 35 * N.of_nat attempts)%N ∧
             (fallbacks = 1 ↔ r = None)) ∧
    draws s' = (draws init_state + 35 * N.of_nat (attempts + fallbacks))%N ∧
    length (heap s') = length (heap init_state) + 3 * (attempts + fallbacks).
Proof.
  exact (generator_terminates rng_lcg rng_lcg_range 0 1 init_state
           tables_at_init).
Defined.

Lemma notice_iff_exhausted_witness :
  ∃ r s1 c s',
    attempt_loop rng_zero 0 1 maxAttempts init_state = Ok (r, s1) ∧
    generateValidAssignment rng_zero 0 1 init_state = Ok (c, s') ∧
    console s1 = console init_state ∧
    match r with
    | None =>
        draws s1 = (draws init_state + 35 * 1000)%N ∧
        console s' = console init_state ++
          [[LogStr "Could not generate valid Catan board after";
            LogNum 1000; LogStr "attempts"]]
    | Some c0 => c = c0 ∧ s' = s1 ∧ console s' = console init_state
    end.
Proof.
  exact (notice_iff_exhausted rng_zero rng_zero_range 0 1 init_state
           tables_at_init).
Defined.

Lemma tables_unchanged_witness :
  ∃ c s',
    generateValidAssignment rng_lcg 0 1 init_state = Ok (c, s') ∧
    (∃ new, heap s' = heap init_state ++ new) ∧
    (∀ l a, heap init_state !! l = Some a → heap s' !! l = Some a) ∧
    tables_at s' 0 1 ∧
    length (heap init_state) ≤ c.1 ∧ length (heap init_state) ≤ c.2 ∧
    ∃ c2 s2 T2 A2,
      generateValidAssignment rng_lcg 0 1 s' = Ok (c2, s2) ∧
      contents s2 c2 = Some (T2, A2) ∧
      (T2, A2) = board rng_lcg (result_cursor rng_lcg (draws s')) ∧
      T2 ≡ₚ VObj <$> terrains ∧
      placed_tokens T2 A2 ≡ₚ VNum <$> tokens ∧
      tables_at s2 0 1.
Proof.
  exact (tables_unchanged rng_lcg rng_lcg_range 0 1 init_state tables_at_init).
Defined.

Lemma rng_lcg_shifted_agrees d :
  rng_lcg (draws init_state + d) = rng_lcg_shifted (draws later_state + d).
Proof.
  unfold rng_lcg_shifted. cbn [draws init_state later_state]. f_equal. lia.
Qed.

Lemma generator_deterministic_witness :
  ∃ c1 s1' c2 s2' B n log,
    generateValidAssignment rng_lcg 0 1 init_state = Ok (c1, s1') ∧
    generateValidAssignment rng_lcg_shifted 1 2 later_state = Ok (c2, s2') ∧
    contents s1' c1 = Some B ∧ contents s2' c2 = Some B ∧
    draws s1' = (draws init_state + n)%N ∧
    draws s2' = (draws later_state + n)%N ∧
    console s1' = console init_state ++ log ∧
    console s2' = console later_state ++ log.
Proof.
  exact (generator_deterministic rng_lcg rng_lcg_shifted 0 1 1 2
           init_state later_state rng_lcg_range rng_lcg_shifted_range
           tables_at_init tables_at_later
           (λ d _, rng_lcg_shifted_agrees d)).
Defined.

(** ** The fallback does not return the last attempt *)

(** C4 as the specification words it fails.  The source [rng_late] hands
    out 0 for the first 35000 draws, so that each of the 1000 attempts
    swaps every cell with cell 0 and builds the same rejected candidate,
    and 1/2 afterwards.  The board that is returned is not the candidate
    of the 1000th attempt: it is built from the draws 35000 to 35034. *)
Lemma fallback_differs_from_last_attempt :
  ∃ s1 c s' Tl Al Tf Af,
    attempt_loop rng_late 0 1 maxAttempts init_state = Ok (None, s1) ∧
    contents s1 (last_candidate s1) = Some (Tl, Al) ∧
    generateValidAssignment rng_late 0 1 init_state = Ok (c, s') ∧
    contents s' c = Some (Tf, Af) ∧
    Al = VNum <$> [3; 3; 4; 4; 5; 5; 6; 6; 8; 8; 9; 9; 10; 10; 11; 11; 12; 0; 2]%Z ∧
    Af = VNum <$> [2; 12; 3; 10; 3; 9; 4; 11; 4; 8; 5; 9; 5; 10; 6; 11; 6; 0; 8]%Z ∧
    (Tl, Al) ≠ (Tf, Af).
Proof.
  pose proof (attempt_loop_exhausted rng_late rng_late_range
                first_accepted_rng_late) as Hl.
  pose proof (generateValidAssignment_Ok rng_late rng_late_range 0 1
                init_state tables_at_init) as Hg.
  assert (Hlast : last_candidate
            (State (heap init_state ++ attempts_arrays rng_late 0 maxAttempts)
                   (35 * N.of_nat maxAttempts) (console init_state))
          = candidate_refs (length (heap init_state)) 999).
  { unfold last_candidate, candidate_refs. cbn [heap].
    rewrite length_app, length_attempts_arrays. by vm_compute. }
  assert (HAl : token_assignments rng_late (0 + 35 * N.of_nat 999) =
    VNum <$> [3; 3; 4; 4; 5; 5; 6; 6; 8; 8; 9; 9; 10; 10; 11; 11; 12; 0; 2]%Z)
    by (by vm_compute).
  assert (HAf : token_assignments rng_late
                  (result_cursor rng_late (draws init_state)) =
    VNum <$> [2; 12; 3; 10; 3; 9; 4; 11; 4; 8; 5; 9; 5; 10; 6; 11; 6; 0; 8]%Z)
    by (by vm_compute).
  eexists _, _, _,
    (shuffled_terrains rng_late (0 + 35 * N.of_nat 999)),
    (token_assignments rng_late (0 + 35 * N.of_nat 999)),
    (shuffled_terrains rng_late (result_cursor rng_late (draws init_state))),
    (token_assignments rng_late (result_cursor rng_late (draws init_state))).
  split; [exact Hl|].
  split; [rewrite Hlast; apply (contents_candidate _ rng_late 0 999)|].
  split; [exact Hg|].
  split; [apply contents_result|].
  split; [exact HAl|]. split; [exact HAf|].
  intros H. apply (f_equal snd) in H. cbn [snd] in H.
  rewrite HAl, HAf in H. vm_compute in H. discriminate H.
Qed.

(** * Further properties of the code *)

(** ** The in-place shuffle on any array *)

Section ShuffleAny.
Variable rng : N → Q.
Hypothesis rng_range : unit_range rng.

(** X1: the Fisher-Yates loop of the generator, run on any array of the
    store (the empty one and the one-cell one included), returns without
    raising, replaces the contents of that array by a permutation of them
    of the same length, leaves every other array, the console and the
    tables untouched, and consumes one draw for each cell but the first. *)
Theorem shuffle_in_place a l s :
  heap s !! a = Some l →
  ∃ l',
    shuffle rng a s =
      Ok (tt, State (<[a := l']> (heap s))
                    (draws s + N.of_nat (length l - 1)) (console s)) ∧
    l' ≡ₚ l ∧ length l' = length l ∧
    (∀ b, b ≠ a → <[a := l']> (heap s) !! b = heap s !! b) ∧
    (length l ≤ 1 → l' = l).
Proof.
  intros Ha. exists (fisher_yates rng (draws s) (length l - 1) l).
  split; [|split; [apply fisher_yates_Permutation|
           split; [apply length_fisher_yates|split]]].
  - destruct (decide (0 < length l)) as [Hl|Hl]; [by apply shuffle_Ok|].
    assert (Hl0 : length l = 0) by lia.
    unfold shuffle. mstep (array_length_Ok _ _ _ Ha). rewrite Hl0.
    cbn [Nat.sub shuffle_from fisher_yates]. unfold mret, M_ret.
    rewrite list_insert_id by done.
    replace (draws s + N.of_nat 0)%N with (draws s) by lia. by destruct s.
  - intros b Hb. by apply list_lookup_insert_ne.
  - intros Hl. by replace (length l - 1) with 0 by lia.
Qed.
End ShuffleAny.

Lemma shuffle_in_place_witness :
  ∃ l',
    shuffle rng_lcg 1 init_state =
      Ok (tt, State (<[1 := l']> (heap init_state))
                    (draws init_state + N.of_nat (length (VNum <$> tokens) - 1))
                    (console init_state)) ∧
    l' ≡ₚ VNum <$> tokens ∧ length l' = length (VNum <$> tokens) ∧
    (∀ b, b ≠ 1 → <[1 := l']> (heap init_state) !! b = heap init_state !! b) ∧
    (length (VNum <$> tokens) ≤ 1 → l' = VNum <$> tokens).
Proof.
  exact (shuffle_in_place rng_lcg rng_lcg_range 1 (VNum <$> tokens)
           init_state eq_refl).
Defined.

(** ** Every permutation is reached *)

Lemma draw_for_range j n : j < n → (0 <= draw_for j n)%Q ∧ (draw_for j n < 1)%Q.
Proof.
  intros Hj. unfold draw_for, Qle, Qlt. cbn [Qnum Qden].
  assert (Hp : Z.pos (Pos.of_nat (2 * n)) = (2 * Z.of_nat n)%Z).
  { rewrite <- (positive_nat_Z (Pos.of_nat (2 * n))).
    rewrite Nat2Pos.id by lia. lia. }
  rewrite Hp. lia.
Qed.

Lemma floor_times_draw_for j n : j < n → floor_times (draw_for j n) n = j.
Proof.
  intros Hj. unfold floor_times, draw_for, Qfloor, Qmult, inject_Z.
  cbn [Qnum Qden].
  assert (Hp : Z.pos (Pos.of_nat (2 * n) * 1) = (2 * Z.of_nat n)%Z).
  { rewrite Pos.mul_1_r, <- (positive_nat_Z (Pos.of_nat (2 * n))).
    rewrite Nat2Pos.id by lia. lia. }
  rewrite Hp.
  rewrite <- (Z.div_unique ((2 * Z.of_nat j + 1) * Z.of_nat n)
                (2 * Z.of_nat n) (Z.of_nat j) (Z.of_nat n)) by lia.
  lia.
Qed.

Lemma rng_of_range k i js : fits js i → unit_range (rng_of k i js).
Proof.
  intros [Hlen Hjs] k'. unfold rng_of.
  destruct (js !! N.to_nat (k' - k)) as [j|] eqn:Hj; [|by split].
  apply draw_for_range. specialize (Hjs _ _ Hj).
  apply lookup_lt_Some in Hj. lia.
Qed.

Lemma fits_cons j js i : fits (j :: js) (S i) → j ≤ S i ∧ fits js i.
Proof.
  intros [Hlen Hjs]. split; [apply (Hjs 0 j eq_refl)|]. split.
  - simpl in Hlen. lia.
  - intros t j' Hj'. specialize (Hjs (S t) j' Hj'). lia.
Qed.

(** With the draws of [rng_of] the shuffle selects the indices [js]. *)
Lemma fisher_yates_rng_of {A} i : ∀ k js (l : list A),
  fits js i → fisher_yates (rng_of k i js) k i l = fy_with js i l.
Proof.
  induction i as [|i IH]; intros k js l Hfit; [done|].
  destruct js as [|j js]; [destruct Hfit as [Hl0 _]; simpl in Hl0; lia|].
  destruct (fits_cons _ _ _ Hfit) as [Hj Hfit'].
  cbn [fisher_yates fy_with].
  assert (H0 : rng_of k (S i) (j :: js) k = draw_for j (S i + 1)).
  { unfold rng_of. by rewrite N.sub_diag. }
  rewrite H0, floor_times_draw_for by lia.
  rewrite <- (IH (N.succ k) js) by done.
  apply fisher_yates_ext. intros d Hd. unfold rng_of.
  replace (N.to_nat (N.succ k + d - k)) with (S (N.to_nat d)) by lia.
  replace (N.to_nat (N.succ k + d - N.succ k)) with (N.to_nat d) by lia.
  cbn [lookup list_lookup]. destruct (js !! N.to_nat d); [|done].
  f_equal; lia.
Qed.

Lemma list_swap_app {A} (a b : list A) i j :
  i < length a → j < length a →
  list_swap (a ++ b) i j = list_swap a i j ++ b.
Proof.
  intros Hi Hj. unfold list_swap. rewrite !lookup_app_l by done.
  destruct (a !! j); [|done]. destruct (a !! i); [|done].
  rewrite insert_app_l by done.
  by rewrite insert_app_l by (by rewrite length_insert).
Qed.

(** A shuffle that starts inside [a] leaves what follows [a] alone. *)
Lemma fy_with_app {A} i : ∀ js (a b : list A),
  fits js i → i < length a → fy_with js i (a ++ b) = fy_with js i a ++ b.
Proof.
  induction i as [|i IH]; intros js a b Hfit Hi; [done|].
  destruct js as [|j js]; [done|].
  destruct (fits_cons _ _ _ Hfit) as [Hj Hfit'].
  cbn [fy_with]. rewrite list_swap_app by lia.
  apply IH; [done|]. rewrite length_list_swap. lia.
Qed.

Lemma list_swap_lookup_l {A} (l : list A) i j x :
  i < length l → l !! j = Some x → list_swap l i j !! i = Some x.
Proof.
  intros Hi Hj. unfold list_swap. rewrite Hj.
  destruct (lookup_lt_is_Some_2 l i Hi) as [y Hy]. rewrite Hy.
  destruct (decide (i = j)) as [->|Hne].
  - rewrite list_lookup_insert_eq by (by rewrite length_insert). congruence.
  - rewrite list_lookup_insert_ne by done. by rewrite list_lookup_insert_eq.
Qed.

Lemma fy_with_reach {A} (l' : list A) : ∀ l,
  l ≡ₚ l' → ∃ js, fits js (length l - 1) ∧ fy_with js (length l - 1) l = l'.
Proof.
  induction l' as [|x l0 IH] using rev_ind; intros l Hl.
  { apply Permutation_nil_r in Hl as ->. by exists []. }
  assert (Hlen : length l = S (length l0)).
  { rewrite Hl, length_app. simpl. lia. }
  destruct (decide (length l0 = 0)) as [H0|H0].
  { destruct l0; [|done]. exists []. rewrite Hlen. split; [done|].
    simpl. destruct l as [|y [|? ?]]; try done.
    apply Permutation_singleton_r in Hl. by rewrite Hl. }
  assert (Hx : x ∈ l) by (rewrite Hl; set_solver).
  apply list_elem_of_lookup_1 in Hx as [j Hj].
  pose proof (lookup_lt_Some _ _ _ Hj) as Hjlt.
  destruct (length l0) as [|i] eqn:Hi; [done|]. clear H0.
  remember (list_swap l (S i) j) as l1 eqn:Hl1def.
  assert (Hl1i : l1 !! S i = Some x).
  { subst l1. apply list_swap_lookup_l; [lia|done]. }
  assert (Hl1len : length l1 = S (S i))
    by (subst l1; by rewrite length_list_swap).
  remember (take (S i) l1) as a eqn:Hadef.
  assert (Hl1 : l1 = a ++ [x]).
  { subst a. rewrite <- (take_S_r l1 (S i) x Hl1i). by rewrite take_ge by lia. }
  assert (Halen : length a = S i) by (subst a; rewrite length_take; lia).
  assert (Hperm : a ≡ₚ l0).
  { apply (inj (.++ [x])). rewrite <- Hl1, Hl1def.
    by rewrite list_swap_Permutation. }
  destruct (IH _ Hperm) as (js & Hfit & Hjs).
  rewrite Halen in Hfit, Hjs. cbn [Nat.sub] in Hfit, Hjs.
  rewrite Nat.sub_0_r in Hfit, Hjs.
  exists (j :: js). rewrite Hlen. cbn [Nat.sub].
  assert (Hfit' : fits (j :: js) (S i)).
  { destruct Hfit as [Hl' Hb]. split; [simpl; lia|].
    intros [|t] j' Hj'; [injection Hj' as <-; lia|].
    specialize (Hb t j' Hj'). lia. }
  split; [done|].
  cbn [fy_with]. rewrite <- Hl1def, Hl1.
  rewrite fy_with_app by (done || lia). by rewrite Hjs.
Qed.

(** X2: the shuffle can produce every arrangement: for any array of the
    store and any permutation of its contents there are draws in [[0,1)]
    for which the shuffle leaves exactly that permutation in the array. *)
Theorem shuffle_reaches_every_permutation a l l' s :
  heap s !! a = Some l → l' ≡ₚ l →
  ∃ rng, unit_range rng ∧
    shuffle rng a s =
      Ok (tt, State (<[a := l']> (heap s))
                    (draws s + N.of_nat (length l - 1)) (console s)).
Proof.
  intros Ha Hl.
  destruct (fy_with_reach l' l) as (js & Hfit & Hjs); [done|].
  exists (rng_of (draws s) (length l - 1) js).
  pose proof (rng_of_range (draws s) _ _ Hfit) as Hr.
  split; [done|].
  destruct (decide (0 < length l)) as [Hl0|Hl0].
  - rewrite (shuffle_Ok _ Hr a l s Ha Hl0).
    by rewrite fisher_yates_rng_of, Hjs.
  - assert (Hnil : l = []) by (destruct l; [done|simpl in Hl0; lia]).
    subst l. apply Permutation_nil_r in Hl as ->.
    unfold shuffle. mstep (array_length_Ok _ _ _ Ha).
    cbn [length Nat.sub shuffle_from]. unfold mret, M_ret.
    rewrite list_insert_id by done.
    replace (draws s + N.of_nat 0)%N with (draws s) by lia. by destruct s.
Qed.

Lemma shuffle_reaches_every_permutation_witness :
  ∃ rng, unit_range rng ∧
    shuffle rng 1 init_state =
      Ok (tt, State (<[1 := reverse (VNum <$> tokens)]> (heap init_state))
                    (draws init_state + N.of_nat (length (VNum <$> tokens) - 1))
                    (console init_state)).
Proof.
  exact (shuffle_reaches_every_permutation 1 (VNum <$> tokens)
           (reverse (VNum <$> tokens)) init_state eq_refl
           (reverse_Permutation _)).
Defined.

(** ** The token assignment on any board *)

(** X3: on any board of 19 terrain objects, with any number of Deserts,
    and any token array that has a token for every non-Desert position,
    the assignment loop returns without raising; it lays the first tokens
    of the array, in their order, on the non-Desert positions taken by
    index, leaves the cells of the Desert positions as they were, and
    writes to no other array. *)
Theorem assignTokens_lays_tokens_in_order tl kl al T K A s :
  heap s !! tl = Some T → heap s !! kl = Some K → heap s !! al = Some A →
  al ≠ tl → al ≠ kl → all_objects T → length A = 19 →
  nondeserts T (seq 0 19) ≤ length K →
  ∃ A',
    assignTokens tl kl al (seq 0 19) 0 s =
      Ok (tt, set_heap (<[al := A']> (heap s)) s) ∧
    length A' = 19 ∧
    placed_tokens T A' = take (nondeserts T (seq 0 19)) K ∧
    (∀ p, is_desert (T !! p) = true → A' !! p = A !! p) ∧
    (∀ b, b ≠ al → <[al := A']> (heap s) !! b = heap s !! b).
Proof.
  intros HT HK HA Hat Hak HTo HAl Hn.
  exists (place_tokens T K (seq 0 19) 0 A).
  split; [|split; [|split; [|split]]].
  - apply (assignTokens_Ok tl kl al T K (seq 0 19) 0 A s); try done.
    intros i Hi. apply elem_of_seq in Hi. split; [lia|]. apply HTo. lia.
  - by rewrite place_tokens_length.
  - unfold placed_tokens. rewrite placed_place, ?drop_0; try done.
    + apply NoDup_seq.
    + intros i Hi. apply elem_of_seq in Hi. lia.
  - intros p Hp. by apply place_tokens_desert.
  - intros b Hb. by apply list_lookup_insert_ne.
Qed.

Lemma all_objects_terrains : all_objects (VObj <$> terrains).
Proof.
  intros i Hi. do 19 (destruct i as [|i]; [by eexists|]). lia.
Qed.

Lemma assignTokens_lays_tokens_in_order_witness :
  ∃ A',
    assignTokens 0 1 2 (seq 0 19) 0
      (State [VObj <$> terrains; VNum <$> tokens; replicate 19 (VNum 0)] 0 []) =
      Ok (tt, State (<[2 := A']>
                [VObj <$> terrains; VNum <$> tokens; replicate 19 (VNum 0)]) 0 []) ∧
    length A' = 19 ∧
    placed_tokens (VObj <$> terrains) A' =
      take (nondeserts (VObj <$> terrains) (seq 0 19)) (VNum <$> tokens) ∧
    (∀ p, is_desert ((VObj <$> terrains) !! p) = true →
          A' !! p = replicate 19 (VNum 0) !! p) ∧
    (∀ b, b ≠ 2 →
       <[2 := A']> [VObj <$> terrains; VNum <$> tokens; replicate 19 (VNum 0)]
         !! b =
       [VObj <$> terrains; VNum <$> tokens; replicate 19 (VNum 0)] !! b).
Proof.
  apply (assignTokens_lays_tokens_in_order 0 1 2 (VObj <$> terrains)
           (VNum <$> tokens) (replicate 19 (VNum 0))
           (State [VObj <$> terrains; VNum <$> tokens; replicate 19 (VNum 0)]
                  0 [])); try done.
  apply all_objects_terrains.
Defined.

(** ** What the validators decide *)

Lemma is_desert_non_desert T p :
  all_objects T → p < 19 → (is_desert (T !! p) = false ↔ non_desert T p).
Proof.
  intros HT Hp. destruct (HT p Hp) as [t Ht]. split.
  - intros Hd. exists (name t). split; [by exists t|].
    intros Hn. unfold is_desert in Hd. rewrite Ht in Hd. simpl in Hd.
    rewrite Hn in Hd. by rewrite bool_decide_eq_true_2 in Hd.
  - apply non_desert_is_desert.
Qed.

Lemma redNeighbour_complete A T adj :
  all_objects T → Forall (λ q, q < 19) adj →
  (∀ q, q ∈ adj → is_desert (T !! q) = false → isRedToken (A !! q) = false) →
  redNeighbour A T adj = Ok false.
Proof.
  intros HT Hadj. induction Hadj as [|q adj Hq _ IH]; intros Hno; [done|].
  destruct (get_name_objects T q HT Hq) as (t & _ & Hn).
  cbn [redNeighbour]. rewrite Hn. cbv [mbind result_bind].
  rewrite (is_desert_ne _ _ Hn).
  destruct (is_desert (T !! q)) eqn:Hd; cbn [negb andb].
  - apply IH. intros q' Hq'. apply Hno. by right.
  - rewrite (Hno q) by (done || by left).
    apply IH. intros q' Hq'. apply Hno. by right.
Qed.

Lemma validateRedAdjacency_from_complete A T idxs :
  all_objects T → Forall (λ i, i < 19) idxs →
  (∀ p adj q, p ∈ idxs → is_desert (T !! p) = false →
     isRedToken (A !! p) = true → adjacencyMap !! p = Some adj → q ∈ adj →
     is_desert (T !! q) = false → isRedToken (A !! q) = false) →
  validateRedAdjacency_from A T idxs = Ok true.
Proof.
  intros HT Hidx. induction Hidx as [|i idxs Hi _ IH]; intros Hno; [done|].
  assert (Htl : validateRedAdjacency_from A T idxs = Ok true).
  { apply IH. intros p adj q Hp. apply Hno. by right. }
  destruct (get_name_objects T i HT Hi) as (t & _ & Hn).
  cbn [validateRedAdjacency_from]. rewrite Hn. cbv [mbind result_bind].
  rewrite (is_desert_eq _ _ Hn).
  destruct (is_desert (T !! i)) eqn:Hd; [done|].
  destruct (isRedToken (A !! i)) eqn:Hr; [|done].
  destruct (adjacencyMap_bounds i Hi) as (adj & Hadj & Hb). rewrite Hadj.
  rewrite (redNeighbour_complete A T adj HT Hb); [done|].
  intros q Hq. by apply (Hno i adj q); [left|..].
Qed.

(** X4: on a board of 19 terrain objects the red-adjacency validator
    returns a boolean, and returns [true] exactly when no non-Desert
    position among the 19 that holds 6 or 8 has, in the adjacency table,
    a non-Desert neighbour holding 6 or 8.  A 6 or 8 left in a Desert
    cell is not looked at. *)
Theorem validateRedAdjacency_true_iff (A T : list value) :
  all_objects T →
  (∃ b, validateRedAdjacency A T = Ok b) ∧
  (validateRedAdjacency A T = Ok true ↔
   ∀ p q adj, p < 19 → non_desert T p → red A p →
     adjacencyMap !! p = Some adj → q ∈ adj → non_desert T q → ¬ red A q).
Proof.
  intros HT. rewrite validateRedAdjacency_eq. split.
  { apply validateRedAdjacency_from_total; [done|apply Forall_seq_lt]. }
  split.
  - intros Hv p q adj Hp Hndp Hrp Hadj Hq Hndq Hrq.
    pose proof (validateRedAdjacency_from_true A T _ Hv p adj q) as Hf.
    apply red_isRedToken in Hrq. rewrite Hf in Hrq; try done.
    + apply elem_of_seq. lia.
    + by apply non_desert_is_desert.
    + by apply red_isRedToken.
    + by apply non_desert_is_desert.
  - intros Hno. apply validateRedAdjacency_from_complete;
      [done|apply Forall_seq_lt|].
    intros p adj q Hp Hdp Hrp Hadj Hq Hdq.
    apply elem_of_seq in Hp.
    destruct (adjacencyMap_bounds p ltac:(lia)) as (adj' & Hadj' & Hb).
    assert (adj' = adj) as -> by congruence.
    rewrite Forall_forall in Hb. specialize (Hb q Hq).
    destruct (isRedToken (A !! q)) eqn:Hrq; [|done].
    exfalso. apply (Hno p q adj); try done.
    + lia.
    + apply is_desert_non_desert; [done|lia|done].
    + by apply red_isRedToken.
    + by apply is_desert_non_desert.
    + by apply red_isRedToken.
Qed.

Lemma validateRedAdjacency_true_iff_witness :
  (∃ b, validateRedAdjacency (replicate 19 (VNum 6)) (VObj <$> terrains) = Ok b) ∧
  (validateRedAdjacency (replicate 19 (VNum 6)) (VObj <$> terrains) = Ok true ↔
   ∀ p q adj, p < 19 → non_desert (VObj <$> terrains) p →
     red (replicate 19 (VNum 6)) p →
     adjacencyMap !! p = Some adj → q ∈ adj →
     non_desert (VObj <$> terrains) q → ¬ red (replicate 19 (VNum 6)) q).
Proof.
  exact (validateRedAdjacency_true_iff (replicate 19 (VNum 6))
           (VObj <$> terrains) all_objects_terrains).
Defined.

Lemma member_iff T r p :
  all_objects T → length T = 19 →
  (p ∈ members T r (seq 0 19) ↔ terrain_type T p r ∧ r ≠ "Desert").
Proof.
  intros HT Hlen. split.
  - intros Hp. apply list_elem_of_filter in Hp as [Hk Hp].
    apply elem_of_seq in Hp. destruct (HT p ltac:(lia)) as [t Ht].
    unfold resource_key in Hk. rewrite Ht in Hk. simpl in Hk.
    destruct (bool_decide (Some (name t) = Some "Desert")) eqn:Hd; [done|].
    apply bool_decide_eq_false_1 in Hd. injection Hk as <-.
    split; [by exists t|]. intros Hn. apply Hd. by rewrite Hn.
  - intros [Ht Hr]. by apply terrain_type_member.
Qed.

Lemma filter_length_le_1 {X} (Q : X → Prop) `{∀ x, Decision (Q x)} (l : list X) :
  NoDup l → (∀ p q, p ∈ l → q ∈ l → Q p → Q q → p = q) →
  length (filter Q l) ≤ 1.
Proof.
  intros Hnd Huniq.
  pose proof (NoDup_filter Q l Hnd) as Hndf.
  destruct (filter Q l) as [|a [|b k]] eqn:Hf; simpl; try lia.
  assert (Ha : a ∈ filter Q l) by (rewrite Hf; left).
  assert (Hb : b ∈ filter Q l) by (rewrite Hf; right; left).
  apply list_elem_of_filter in Ha as [HQa Ha].
  apply list_elem_of_filter in Hb as [HQb Hb].
  assert (a = b) as -> by (by apply Huniq).
  apply NoDup_cons in Hndf as [Hin _]. exfalso. apply Hin. left.
Qed.

(** The count of a test over the tokens collected for a resource. *)
Lemma members_count (A T : list value) r (P : option value → Prop)
    `{∀ v, Decision (P v)} :
  all_objects T → length T = 19 →
  (∀ p q, terrain_type T p r → terrain_type T q r → r ≠ "Desert" →
          P (A !! p) → P (A !! q) → p = q) →
  length (filter P ((λ i, A !! i) <$> members T r (seq 0 19))) ≤ 1.
Proof.
  intros HT Hlen Huniq. rewrite length_filter_fmap.
  apply filter_length_le_1.
  - apply NoDup_filter, NoDup_seq.
  - intros p q Hp Hq HPp HPq.
    apply (member_iff T r p HT Hlen) in Hp as [Hp Hr].
    apply (member_iff T r q HT Hlen) in Hq as [Hq _].
    by apply Huniq.
Qed.

(** Every entry the first loop collects is the token list of a resource. *)
Lemma collected_entry (A T : list value) m r ts :
  collectResourceTokens A T (seq 0 19) ∅ = Ok m → m !! r = Some ts →
  ts = (λ i, A !! i) <$> members T r (seq 0 19).
Proof.
  intros Hc Hm.
  pose proof (collectResourceTokens_lookup A T _ _ _ r Hc) as Hl.
  rewrite Hm, lookup_empty in Hl. by cbn [default app] in Hl.
Qed.

(** *** Names that the object of the validators inherits *)

Lemma get_name_Err v e : get_name v = Err e → e = TypeError.
Proof. destruct v as [[]|]; simpl; congruence. Qed.

Lemma push_token_Err key tok (m : gmap string (list (option value))) e :
  push_token key tok m = Err e → e = TypeError.
Proof.
  unfold push_token. destruct (m !! key); [done|].
  destruct (bool_decide _); congruence.
Qed.

(** A push leaves the object without own properties under the inherited
    names. *)
Lemma push_token_inherited key tok (m m' : gmap string (list (option value))) :
  (∀ k, k ∈ object_prototype_names → m !! k = None) →
  push_token key tok m = Ok m' →
  ∀ k, k ∈ object_prototype_names → m' !! k = None.
Proof.
  intros Hm Hp k Hk. unfold push_token in Hp.
  destruct (m !! key) as [ts|] eqn:Hkey.
  - injection Hp as <-. rewrite lookup_insert_ne; [by apply Hm|].
    intros ->. by rewrite (Hm k Hk) in Hkey.
  - destruct (bool_decide (key ∈ object_prototype_names)) eqn:Hin; [done|].
    injection Hp as <-. apply bool_decide_eq_false_1 in Hin.
    rewrite lookup_insert_ne; [by apply Hm|]. by intros ->.
Qed.

Lemma Desert_not_inherited : "Desert" ∉ object_prototype_names.
Proof.
  assert (H : bool_decide ("Desert" ∉ object_prototype_names) = true)
    by (vm_compute; reflexivity).
  by apply bool_decide_eq_true_1 in H.
Qed.

(** The first loop raises at a terrain that bears an inherited name, if
    not before. *)
Lemma collectResourceTokens_inherited (A T : list value) idxs i t : ∀ m,
  (∀ k, k ∈ object_prototype_names → m !! k = None) →
  i ∈ idxs → T !! i = Some (VObj t) → name t ∈ object_prototype_names →
  collectResourceTokens A T idxs m = Err TypeError.
Proof.
  induction idxs as [|j idxs IH]; intros m Hm Hi Ht Hname.
  { by apply elem_of_nil in Hi. }
  cbn [collectResourceTokens].
  destruct (get_name (T !! j)) as [n|e] eqn:Hn;
    [|by rewrite (get_name_Err _ _ Hn)].
  cbv [mbind result_bind].
  destruct (decide (j = i)) as [->|Hne].
  - rewrite Ht in Hn. injection Hn as <-.
    rewrite bool_decide_eq_false_2.
    2:{ intros [= Hd]. pose proof Desert_not_inherited as HD.
        by rewrite <- Hd in HD. }
    cbv zeta. change (property_key (Some (name t))) with (name t).
    unfold push_token. rewrite (Hm _ Hname).
    by rewrite bool_decide_eq_true_2.
  - apply elem_of_cons in Hi as [->|Hi]; [done|].
    destruct (bool_decide (n = Some "Desert")); [by apply IH|].
    cbv zeta.
    destruct (push_token (property_key n) (A !! j) m) as [m1|e] eqn:Hp.
    + apply IH; try done. by apply (push_token_inherited _ _ _ _ Hm Hp).
    + by rewrite (push_token_Err _ _ _ _ Hp).
Qed.

Lemma plain_names_terrains : plain_names (VObj <$> terrains).
Proof.
  intros i t _ Hi. rewrite list_lookup_fmap in Hi.
  apply fmap_Some in Hi as (t' & Ht' & [= <-]).
  pose proof terrains_plain as HF. rewrite Forall_lookup in HF.
  by apply (HF i).
Qed.

(** X5: what the resource validator decides on a board of exactly 19
    terrain objects.  When a terrain bears a name that the object
    [resourceTokens] inherits from [Object.prototype] (constructor,
    toString, ...), the validator raises a [TypeError].  When no terrain
    does, it returns a boolean, and returns [true] exactly when no
    non-Desert terrain type has two positions holding 6 nor two positions
    holding 8. *)
Theorem validateResourceDistribution_true_iff (A T : list value) :
  all_objects T → length T = 19 →
  ((∃ i t, i < 19 ∧ T !! i = Some (VObj t) ∧
           name t ∈ object_prototype_names) →
   validateResourceDistribution A T = Err TypeError) ∧
  (plain_names T →
   (∃ b, validateResourceDistribution A T = Ok b) ∧
   (validateResourceDistribution A T = Ok true ↔ six_eight_once T A)).
Proof.
  intros HT Hlen. rewrite validateResourceDistribution_eq. split.
  { intros (i & t & Hi & Ht & Hname).
    rewrite (collectResourceTokens_inherited A T (seq 0 19) i t ∅); try done.
    apply elem_of_seq. lia. }
  intros HP.
  destruct (collectResourceTokens_total A T (seq 0 19) ∅ HT HP
              (Forall_seq_lt 19)) as [m Hc].
  split; [rewrite Hc; by eexists|]. split.
  - intros Hv. apply validateResourceDistribution_true; [|done].
    by rewrite validateResourceDistribution_eq.
  - intros Hfair. rewrite Hc. cbv [mbind result_bind mret result_ret].
    f_equal. apply bool_decide_eq_true_2. intros r ts Hm.
    rewrite (collected_entry A T m r ts Hc Hm).
    assert (H6 : sixCount ((λ i, A !! i) <$> members T r (seq 0 19)) ≤ 1).
    { apply (members_count A T r (λ t, t = Some (VNum 6))); try done.
      intros p q Hp Hq Hr Hp6 Hq6. by apply (Hfair r 6%Z p q); [|left|..]. }
    assert (H8 : eightCount ((λ i, A !! i) <$> members T r (seq 0 19)) ≤ 1).
    { apply (members_count A T r (λ t, t = Some (VNum 8))); try done.
      intros p q Hp Hq Hr Hp8 Hq8. by apply (Hfair r 8%Z p q); [|right|..]. }
    lia.
Qed.

Lemma validateResourceDistribution_true_iff_witness :
  (∃ b, validateResourceDistribution (replicate 19 (VNum 6))
          (VObj <$> terrains) = Ok b) ∧
  (validateResourceDistribution (replicate 19 (VNum 6)) (VObj <$> terrains)
     = Ok true ↔
   six_eight_once (VObj <$> terrains) (replicate 19 (VNum 6))).
Proof.
  exact (proj2 (validateResourceDistribution_true_iff (replicate 19 (VNum 6))
                  (VObj <$> terrains) all_objects_terrains eq_refl)
           plain_names_terrains).
Defined.

(** X6: what the low-number validator decides on a board of exactly 19
    terrain objects.  When a terrain bears a name that the object
    [resourceTokens] inherits from [Object.prototype], the validator
    raises a [TypeError].  When no terrain does, it returns a boolean,
    and returns [true] exactly when no non-Desert terrain type has two
    positions holding a token among 2, 3 and 12. *)
Theorem validateLowNumberClustering_true_iff (A T : list value) :
  all_objects T → length T = 19 →
  ((∃ i t, i < 19 ∧ T !! i = Some (VObj t) ∧
           name t ∈ object_prototype_names) →
   validateLowNumberClustering A T = Err TypeError) ∧
  (plain_names T →
   (∃ b, validateLowNumberClustering A T = Ok b) ∧
   (validateLowNumberClustering A T = Ok true ↔ low_once T A)).
Proof.
  intros HT Hlen. rewrite validateLowNumberClustering_eq. split.
  { intros (i & t & Hi & Ht & Hname).
    rewrite (collectResourceTokens_inherited A T (seq 0 19) i t ∅); try done.
    apply elem_of_seq. lia. }
  intros HP.
  destruct (collectResourceTokens_total A T (seq 0 19) ∅ HT HP
              (Forall_seq_lt 19)) as [m Hc].
  split; [rewrite Hc; by eexists|]. split.
  - intros Hv. apply validateLowNumberClustering_true; [|done].
    by rewrite validateLowNumberClustering_eq.
  - intros Hfair. rewrite Hc. cbv [mbind result_bind mret result_ret].
    f_equal. apply bool_decide_eq_true_2. intros r ts Hm.
    rewrite (collected_entry A T m r ts Hc Hm).
    assert (Hlow : length (lowNumbers
              ((λ i, A !! i) <$> members T r (seq 0 19))) ≤ 1).
    { apply (members_count A T r
        (λ t, t = Some (VNum 2) ∨ t = Some (VNum 3) ∨ t = Some (VNum 12)));
        try done.
      intros p q Hp Hq Hr Hpl Hql. by apply (Hfair r p q). }
    lia.
Qed.

Lemma validateLowNumberClustering_true_iff_witness :
  (∃ b, validateLowNumberClustering (replicate 19 (VNum 2))
          (VObj <$> terrains) = Ok b) ∧
  (validateLowNumberClustering (replicate 19 (VNum 2)) (VObj <$> terrains)
     = Ok true ↔
   low_once (VObj <$> terrains) (replicate 19 (VNum 2))).
Proof.
  exact (proj2 (validateLowNumberClustering_true_iff (replicate 19 (VNum 2))
                  (VObj <$> terrains) all_objects_terrains eq_refl)
           plain_names_terrains).
Defined.

(** A board with a terrain named after a property of [Object.prototype]:
    both resource validators raise at its first position. *)
Example validators_raise_on_constructor :
  let T := VObj <$> (Terrain 0 "constructor" "" :: terrains) in
  validateResourceDistribution (replicate 19 (VNum 5)) T = Err TypeError ∧
  validateLowNumberClustering (replicate 19 (VNum 5)) T = Err TypeError.
Proof. vm_compute. by split. Qed.

(** ** Validation looks only at the non-Desert positions *)

Lemma redNeighbour_agree (A A' T : list value) adj :
  (∀ i, i < 19 → is_desert (T !! i) = false → A !! i = A' !! i) →
  Forall (λ q, q < 19) adj →
  redNeighbour A T adj = redNeighbour A' T adj.
Proof.
  intros Hag. induction 1 as [|q adj Hq _ IH]; [done|].
  cbn [redNeighbour].
  destruct (get_name (T !! q)) as [n|e] eqn:Hn; [|done].
  cbv [mbind result_bind]. rewrite (is_desert_ne _ _ Hn).
  destruct (is_desert (T !! q)) eqn:Hd; cbn [negb andb]; [done|].
  by rewrite (Hag q Hq Hd), IH.
Qed.

Lemma validateRedAdjacency_from_agree (A A' T : list value) idxs :
  (∀ i, i < 19 → is_desert (T !! i) = false → A !! i = A' !! i) →
  Forall (λ i, i < 19) idxs →
  validateRedAdjacency_from A T idxs = validateRedAdjacency_from A' T idxs.
Proof.
  intros Hag. induction 1 as [|i idxs Hi _ IH]; [done|].
  cbn [validateRedAdjacency_from].
  destruct (get_name (T !! i)) as [n|e] eqn:Hn; [|done].
  cbv [mbind result_bind]. rewrite (is_desert_eq _ _ Hn).
  destruct (is_desert (T !! i)) eqn:Hd; [done|].
  rewrite (Hag i Hi Hd), IH.
  destruct (adjacencyMap_bounds i Hi) as (adj & -> & Hb).
  by rewrite (redNeighbour_agree A A' T adj Hag Hb).
Qed.

Lemma collectResourceTokens_agree (A A' T : list value) idxs :
  (∀ i, i < 19 → is_desert (T !! i) = false → A !! i = A' !! i) →
  Forall (λ i, i < 19) idxs →
  ∀ m, collectResourceTokens A T idxs m = collectResourceTokens A' T idxs m.
Proof.
  intros Hag. induction 1 as [|i idxs Hi _ IH]; intros m; [done|].
  cbn [collectResourceTokens].
  destruct (get_name (T !! i)) as [n|e] eqn:Hn; [|done].
  cbv [mbind result_bind]. rewrite (is_desert_eq _ _ Hn).
  destruct (is_desert (T !! i)) eqn:Hd; [done|].
  cbv zeta. rewrite (Hag i Hi Hd).
  destruct (push_token (property_key n) (A' !! i) m) as [m1|e]; [|done].
  apply IH.
Qed.

(** X7: the three validators look at the tokens of the non-Desert
    positions only.  Two token arrays that agree on every position below
    19 whose terrain is not Desert get the same answer (or the same
    error) from each validator, whatever the Desert's cell or the cells
    from 19 on hold. *)
Theorem validators_ignore_desert_cells (A A' T : list value) :
  (∀ i, i < 19 → is_desert (T !! i) = false → A !! i = A' !! i) →
  validateRedAdjacency A T = validateRedAdjacency A' T ∧
  validateResourceDistribution A T = validateResourceDistribution A' T ∧
  validateLowNumberClustering A T = validateLowNumberClustering A' T.
Proof.
  intros Hag.
  rewrite !validateRedAdjacency_eq, !validateResourceDistribution_eq,
    !validateLowNumberClustering_eq.
  rewrite (validateRedAdjacency_from_agree A A' T _ Hag (Forall_seq_lt 19)).
  by rewrite (collectResourceTokens_agree A A' T _ Hag (Forall_seq_lt 19)).
Qed.

Lemma validators_ignore_desert_cells_witness :
  validateRedAdjacency (replicate 19 (VNum 5)) (VObj <$> terrains) =
    validateRedAdjacency (<[18 := VNum 6]> (replicate 19 (VNum 5)))
      (VObj <$> terrains) ∧
  validateResourceDistribution (replicate 19 (VNum 5)) (VObj <$> terrains) =
    validateResourceDistribution (<[18 := VNum 6]> (replicate 19 (VNum 5)))
      (VObj <$> terrains) ∧
  validateLowNumberClustering (replicate 19 (VNum 5)) (VObj <$> terrains) =
    validateLowNumberClustering (<[18 := VNum 6]> (replicate 19 (VNum 5)))
      (VObj <$> terrains).
Proof.
  apply (validators_ignore_desert_cells (replicate 19 (VNum 5))
           (<[18 := VNum 6]> (replicate 19 (VNum 5))) (VObj <$> terrains)).
  intros i Hi Hd.
  destruct (decide (i = 18)) as [->|Hne]; [vm_compute in Hd; discriminate|].
  by rewrite list_lookup_insert_ne.
Defined.

(** ** Boards that are too short *)

Lemma collectResourceTokens_short (A T : list value) idxs : ∀ m i,
  i ∈ idxs → T !! i = None →
  collectResourceTokens A T idxs m = Err TypeError.
Proof.
  induction idxs as [|j idxs IH]; intros m i Hi Hnone.
  { by apply elem_of_nil in Hi. }
  cbn [collectResourceTokens].
  destruct (get_name (T !! j)) as [n|e] eqn:Hn.
  - cbv [mbind result_bind].
    apply elem_of_cons in Hi as [->|Hi].
    { rewrite Hnone in Hn. discriminate. }
    destruct (bool_decide (n = Some "Desert")); [by apply (IH _ i)|].
    cbv zeta.
    destruct (push_token (property_key n) (A !! j) m) as [m1|e] eqn:Hp.
    + by apply (IH _ i).
    + by rewrite (push_token_Err _ _ _ _ Hp).
  - by rewrite (get_name_Err _ _ Hn).
Qed.

Lemma redNeighbour_errors (A T : list value) adj :
  (∃ b, redNeighbour A T adj = Ok b) ∨ redNeighbour A T adj = Err TypeError.
Proof.
  induction adj as [|q adj IH]; [left; by exists false|].
  cbn [redNeighbour].
  destruct (get_name (T !! q)) as [n|e] eqn:Hn.
  - cbv [mbind result_bind].
    destruct (bool_decide (n ≠ Some "Desert") && isRedToken (A !! q));
      [left; by exists true|done].
  - right. by rewrite (get_name_Err _ _ Hn).
Qed.

Lemma validateRedAdjacency_from_short (A T : list value) idxs i :
  Forall (λ i, i < 19) idxs → i ∈ idxs → T !! i = None →
  validateRedAdjacency_from A T idxs = Ok false ∨
  validateRedAdjacency_from A T idxs = Err TypeError.
Proof.
  induction 1 as [|j idxs Hj _ IH]; intros Hi Hnone.
  { by apply elem_of_nil in Hi. }
  cbn [validateRedAdjacency_from].
  destruct (get_name (T !! j)) as [n|e] eqn:Hn.
  - cbv [mbind result_bind].
    apply elem_of_cons in Hi as [->|Hi].
    { rewrite Hnone in Hn. discriminate. }
    destruct (bool_decide (n = Some "Desert")); [by apply IH|].
    destruct (isRedToken (A !! j)); [|by apply IH].
    destruct (adjacencyMap_bounds j Hj) as (adj & -> & _).
    destruct (redNeighbour_errors A T adj) as [[[] ->]| ->];
      [by left|by apply IH|by right].
  - right. by rewrite (get_name_Err _ _ Hn).
Qed.

(** X8: a terrain array with fewer than 19 entries is never validated.
    The two resource validators throw a [TypeError] on it (they read
    [terrainTypes[i].name] at every index below 19), and the
    red-adjacency validator either throws a [TypeError] or has already
    returned [false]; the condition of the retry loop is never [true]. *)
Theorem short_board_not_validated (A T : list value) :
  length T < 19 →
  validateResourceDistribution A T = Err TypeError ∧
  validateLowNumberClustering A T = Err TypeError ∧
  (validateRedAdjacency A T = Ok false ∨
   validateRedAdjacency A T = Err TypeError) ∧
  all_valid T A ≠ Ok true.
Proof.
  intros Hlen.
  assert (Hin : length T ∈ seq 0 19) by (apply elem_of_seq; lia).
  assert (Hnone : T !! length T = None) by (by apply lookup_ge_None_2).
  assert (Hd : validateResourceDistribution A T = Err TypeError).
  { rewrite validateResourceDistribution_eq.
    by rewrite (collectResourceTokens_short A T _ ∅ _ Hin Hnone). }
  split; [done|]. split.
  { rewrite validateLowNumberClustering_eq.
    by rewrite (collectResourceTokens_short A T _ ∅ _ Hin Hnone). }
  split.
  { rewrite validateRedAdjacency_eq.
    apply (validateRedAdjacency_from_short A T _ _ (Forall_seq_lt 19) Hin Hnone). }
  intros Hv. apply all_valid_true in Hv as (_ & Hv & _). congruence.
Qed.

Lemma short_board_not_validated_witness :
  validateResourceDistribution [] [] = Err TypeError ∧
  validateLowNumberClustering [] [] = Err TypeError ∧
  (validateRedAdjacency [] [] = Ok false ∨
   validateRedAdjacency [] [] = Err TypeError) ∧
  all_valid [] [] ≠ Ok true.
Proof. apply (short_board_not_validated [] []). simpl. lia. Defined.

(** ** Which boards the generator can return *)

Lemma rng_attempt_range k js1 js2 :
  fits js1 18 → fits js2 17 → unit_range (rng_attempt k js1 js2).
Proof.
  intros H1 H2 k'. unfold rng_attempt.
  destruct (k' <? k + 18)%N; by apply rng_of_range.
Qed.

Lemma rng_periodic_range k js1 js2 :
  fits js1 18 → fits js2 17 → unit_range (rng_periodic k js1 js2).
Proof. intros H1 H2 k'. unfold rng_periodic. by apply rng_attempt_range. Qed.

Lemma rng_periodic_at k js1 js2 j d :
  (d < 35)%N →
  rng_periodic k js1 js2 (k + 35 * N.of_nat j + d) =
    rng_attempt k js1 js2 (k + d).
Proof.
  intros Hd. unfold rng_periodic. f_equal. f_equal.
  replace (k + 35 * N.of_nat j + d - k)%N with (d + N.of_nat j * 35)%N by lia.
  rewrite N.Div0.mod_add. by apply N.mod_small.
Qed.

#[local] Transparent shuffled_terrains shuffled_tokens.

Lemma shuffled_terrains_eq rng k :
  shuffled_terrains rng k = fisher_yates rng k 18 (VObj <$> terrains).
Proof. reflexivity. Qed.

Lemma shuffled_tokens_eq rng k :
  shuffled_tokens rng k = fisher_yates rng (k + 18) 17 (VNum <$> tokens).
Proof. reflexivity. Qed.

#[local] Opaque shuffled_terrains shuffled_tokens.

(** Every attempt on the periodic source builds the board of [js1] and
    [js2]. *)
Lemma board_rng_periodic k js1 js2 j :
  fits js1 18 → fits js2 17 →
  shuffled_terrains (rng_periodic k js1 js2) (k + 35 * N.of_nat j) =
    fy_with js1 18 (VObj <$> terrains) ∧
  token_assignments (rng_periodic k js1 js2) (k + 35 * N.of_nat j) =
    place_tokens (fy_with js1 18 (VObj <$> terrains))
      (fy_with js2 17 (VNum <$> tokens)) (seq 0 19) 0 (replicate 19 (VNum 0)).
Proof.
  intros H1 H2. rewrite token_assignments_eq.
  assert (HT : shuffled_terrains (rng_periodic k js1 js2) (k + 35 * N.of_nat j)
               = fy_with js1 18 (VObj <$> terrains)).
  { rewrite shuffled_terrains_eq, <- (fisher_yates_rng_of 18 k js1) by done.
    apply fisher_yates_ext. intros d Hd.
    rewrite rng_periodic_at by lia. unfold rng_attempt.
    by rewrite (proj2 (N.ltb_lt _ _)) by lia. }
  assert (HK : shuffled_tokens (rng_periodic k js1 js2) (k + 35 * N.of_nat j)
               = fy_with js2 17 (VNum <$> tokens)).
  { rewrite shuffled_tokens_eq, <- (fisher_yates_rng_of 17 (k + 18) js2) by done.
    apply fisher_yates_ext. intros d Hd.
    replace (k + 35 * N.of_nat j + 18 + d)%N
      with (k + 35 * N.of_nat j + (18 + d))%N by lia.
    rewrite rng_periodic_at by lia. unfold rng_attempt.
    rewrite (proj2 (N.ltb_ge _ _)) by lia. f_equal. lia. }
  by rewrite HT, HK.
Qed.

Lemma accepted_rng_periodic k js1 js2 j :
  fits js1 18 → fits js2 17 →
  accepted (rng_periodic k js1 js2) (k + 35 * N.of_nat j) =
    bool_decide
      (all_valid (fy_with js1 18 (VObj <$> terrains))
         (place_tokens (fy_with js1 18 (VObj <$> terrains))
            (fy_with js2 17 (VNum <$> tokens)) (seq 0 19) 0
            (replicate 19 (VNum 0))) = Ok true).
Proof.
  intros H1 H2.
  destruct (board_rng_periodic k js1 js2 j H1 H2) as [HT HA].
  unfold accepted. by rewrite HT, HA.
Qed.

Lemma first_accepted_all_false rng r : ∀ k,
  (∀ j, accepted rng (k + 35 * N.of_nat j) = false) →
  first_accepted rng k r = None.
Proof.
  induction r as [|r IH]; intros k Hall; [done|].
  cbn [first_accepted].
  pose proof (Hall 0) as H0.
  replace (k + 35 * N.of_nat 0)%N with k in H0 by lia. rewrite H0.
  rewrite IH; [done|]. intros j.
  replace (k + 35 + 35 * N.of_nat j)%N with (k + 35 * N.of_nat (S j))%N by lia.
  apply Hall.
Qed.

Lemma first_accepted_first rng k r :
  accepted rng k = true → first_accepted rng k (S r) = Some 0.
Proof. intros H. cbn [first_accepted]. by rewrite H. Qed.

Lemma maxAttempts_S : maxAttempts = S 999.
Proof. reflexivity. Qed.

(** The run on a periodic source: the board of [js1] and [js2], at the
    first attempt when it is valid and by the fallback when it is not. *)
Lemma generateValidAssignment_periodic tr kr s js1 js2 :
  tables_at s tr kr → fits js1 18 → fits js2 17 →
  let T := fy_with js1 18 (VObj <$> terrains) in
  let A := place_tokens T (fy_with js2 17 (VNum <$> tokens)) (seq 0 19) 0
             (replicate 19 (VNum 0)) in
  ∃ c s',
    generateValidAssignment (rng_periodic (draws s) js1 js2) tr kr s = Ok (c, s') ∧
    contents s' c = Some (T, A) ∧
    (all_valid T A = Ok true →
       attempt_loop (rng_periodic (draws s) js1 js2) tr kr maxAttempts s
         = Ok (Some c, s') ∧
       draws s' = (draws s + 35)%N ∧ console s' = console s) ∧
    (all_valid T A ≠ Ok true →
       draws s' = (draws s + 35 * 1001)%N ∧
       console s' = console s ++ [fallback_notice]).
Proof.
  intros Hs H1 H2 T A.
  pose proof (rng_periodic_range (draws s) js1 js2 H1 H2) as Hr.
  remember (rng_periodic (draws s) js1 js2) as rng eqn:Hrng.
  eexists _, _. split.
  { apply (generateValidAssignment_Ok rng Hr tr kr s Hs). }
  split.
  { rewrite contents_result. unfold result_cursor, board. rewrite Hrng.
    destruct (board_rng_periodic (draws s) js1 js2
      (default maxAttempts
         (first_accepted (rng_periodic (draws s) js1 js2) (draws s) maxAttempts))
      H1 H2) as [-> ->].
    done. }
  assert (Hacc : ∀ j, accepted rng (draws s + 35 * N.of_nat j) =
                      bool_decide (all_valid T A = Ok true)).
  { intros j. rewrite Hrng. by apply accepted_rng_periodic. }
  cbn [draws console]. split.
  - intros Hv.
    assert (Hf : first_accepted rng (draws s) maxAttempts = Some 0).
    { rewrite maxAttempts_S. apply first_accepted_first.
      pose proof (Hacc 0) as H0.
      replace (draws s + 35 * N.of_nat 0)%N with (draws s) in H0 by lia.
      rewrite H0. by apply bool_decide_eq_true_2. }
    split.
    { rewrite (attempt_loop_Ok rng Hr tr kr _ s Hs).
      unfold attempts_made, candidates_made, notices. rewrite Hf.
      cbn [default loop_result fmap option_fmap option_map]. unfold id.
      by rewrite app_nil_r. }
    unfold candidates_made, notices. rewrite Hf. cbn [default]. unfold id.
    split; [lia|by rewrite app_nil_r].
  - intros Hv.
    assert (Hf : first_accepted rng (draws s) maxAttempts = None).
    { apply first_accepted_all_false. intros j. rewrite Hacc.
      by apply bool_decide_eq_false_2. }
    unfold candidates_made, notices. rewrite Hf. cbn [default]. unfold id.
    split; [|done]. rewrite Nat2N.inj_succ, maxAttempts_N. lia.
Qed.

Lemma length_terrains_table : length (VObj <$> terrains) - 1 = 18.
Proof. reflexivity. Qed.

Lemma length_tokens_table : length (VNum <$> tokens) - 1 = 17.
Proof. reflexivity. Qed.

(** Every arrangement of the tables is the work of some index lists. *)
Lemma arrangement_indices (T' K' : list value) :
  T' ≡ₚ VObj <$> terrains → K' ≡ₚ VNum <$> tokens →
  ∃ js1 js2, fits js1 18 ∧ fits js2 17 ∧
    fy_with js1 18 (VObj <$> terrains) = T' ∧
    fy_with js2 17 (VNum <$> tokens) = K'.
Proof.
  intros HT HK.
  destruct (fy_with_reach T' (VObj <$> terrains)) as (js1 & H1 & E1); [done|].
  destruct (fy_with_reach K' (VNum <$> tokens)) as (js2 & H2 & E2); [done|].
  rewrite length_terrains_table in H1, E1.
  rewrite length_tokens_table in H2, E2.
  by exists js1, js2.
Qed.

(** X9: the retry loop never keeps a valid board out.  For every
    arrangement [T'] of the 19 terrains and every order [K'] of the 18
    tokens whose board (the tokens laid in order on the non-Desert
    positions) passes the three validators, there is a random source in
    [[0,1)] on which the generator returns exactly that board at its
    first attempt: 35 draws, nothing written on the console. *)
Theorem generator_reaches_every_valid_board tr kr s (T' K' : list value) :
  tables_at s tr kr →
  T' ≡ₚ VObj <$> terrains → K' ≡ₚ VNum <$> tokens →
  all_valid T' (place_tokens T' K' (seq 0 19) 0 (replicate 19 (VNum 0)))
    = Ok true →
  ∃ rng c s', unit_range rng ∧
    generateValidAssignment rng tr kr s = Ok (c, s') ∧
    contents s' c =
      Some (T', place_tokens T' K' (seq 0 19) 0 (replicate 19 (VNum 0))) ∧
    draws s' = (draws s + 35)%N ∧ console s' = console s.
Proof.
  intros Hs HT HK Hv.
  destruct (arrangement_indices T' K' HT HK) as (js1 & js2 & H1 & H2 & E1 & E2).
  destruct (generateValidAssignment_periodic tr kr s js1 js2 Hs H1 H2)
    as (c & s' & Hg & Hc & Hok & _).
  rewrite E1, E2 in Hc, Hok.
  exists (rng_periodic (draws s) js1 js2), c, s'.
  split; [by apply rng_periodic_range|]. split; [done|]. split; [done|].
  by destruct (Hok Hv) as (_ & Hd & Hcon).
Qed.

(** X10: the fallback lets every board through.  For every arrangement
    [T'] of the terrains and order [K'] of the tokens whose board does
    not pass the validators, there is a random source in [[0,1)] on which
    the generator returns exactly that board: after 1000 rejected
    attempts and the fallback, 35 * 1001 draws, with the warning on the
    console. *)
Theorem generator_returns_every_invalid_board tr kr s (T' K' : list value) :
  tables_at s tr kr →
  T' ≡ₚ VObj <$> terrains → K' ≡ₚ VNum <$> tokens →
  all_valid T' (place_tokens T' K' (seq 0 19) 0 (replicate 19 (VNum 0)))
    ≠ Ok true →
  ∃ rng c s', unit_range rng ∧
    generateValidAssignment rng tr kr s = Ok (c, s') ∧
    contents s' c =
      Some (T', place_tokens T' K' (seq 0 19) 0 (replicate 19 (VNum 0))) ∧
    draws s' = (draws s + 35 * 1001)%N ∧
    console s' = console s ++ [fallback_notice].
Proof.
  intros Hs HT HK Hv.
  destruct (arrangement_indices T' K' HT HK) as (js1 & js2 & H1 & H2 & E1 & E2).
  destruct (generateValidAssignment_periodic tr kr s js1 js2 Hs H1 H2)
    as (c & s' & Hg & Hc & _ & Hbad).
  rewrite E1, E2 in Hc, Hbad.
  exists (rng_periodic (draws s) js1 js2), c, s'.
  split; [by apply rng_periodic_range|]. split; [done|]. split; [done|].
  by apply Hbad.
Qed.

Lemma fy_with_Permutation {A} js : ∀ i (l : list A), fy_with js i l ≡ₚ l.
Proof.
  induction js as [|j js IH]; intros [|i] l; try done.
  cbn [fy_with]. by rewrite IH, list_swap_Permutation.
Qed.

Lemma fits_draws_terrains_8_12 : fits draws_terrains_8_12 18.
Proof.
  split; [reflexivity|]. intros t j Hj. unfold draws_terrains_8_12 in Hj.
  repeat (destruct t as [|t]; [simpl in Hj; injection Hj as <-; lia|]).
  done.
Qed.

Lemma fits_draws_tokens_8_12 : fits draws_tokens_8_12 17.
Proof.
  split; [reflexivity|]. intros t j Hj. unfold draws_tokens_8_12 in Hj.
  repeat (destruct t as [|t]; [simpl in Hj; injection Hj as <-; lia|]).
  done.
Qed.

Lemma all_valid_8_12 :
  all_valid (fy_with draws_terrains_8_12 18 (VObj <$> terrains))
    (place_tokens (fy_with draws_terrains_8_12 18 (VObj <$> terrains))
       (fy_with draws_tokens_8_12 17 (VNum <$> tokens)) (seq 0 19) 0
       (replicate 19 (VNum 0))) = Ok true.
Proof. vm_compute. reflexivity. Qed.

Lemma all_valid_tables :
  all_valid (VObj <$> terrains)
    (place_tokens (VObj <$> terrains) (VNum <$> tokens) (seq 0 19) 0
       (replicate 19 (VNum 0))) ≠ Ok true.
Proof. vm_compute. discriminate. Qed.

Lemma generator_reaches_every_valid_board_witness :
  ∃ rng c s', unit_range rng ∧
    generateValidAssignment rng 0 1 init_state = Ok (c, s') ∧
    contents s' c =
      Some (fy_with draws_terrains_8_12 18 (VObj <$> terrains),
            place_tokens (fy_with draws_terrains_8_12 18 (VObj <$> terrains))
              (fy_with draws_tokens_8_12 17 (VNum <$> tokens)) (seq 0 19) 0
              (replicate 19 (VNum 0))) ∧
    draws s' = (draws init_state + 35)%N ∧ console s' = console init_state.
Proof.
  apply (generator_reaches_every_valid_board 0 1 init_state
           (fy_with draws_terrains_8_12 18 (VObj <$> terrains))
           (fy_with draws_tokens_8_12 17 (VNum <$> tokens))).
  - apply tables_at_init.
  - apply fy_with_Permutation.
  - apply fy_with_Permutation.
  - apply all_valid_8_12.
Defined.

Lemma generator_returns_every_invalid_board_witness :
  ∃ rng c s', unit_range rng ∧
    generateValidAssignment rng 0 1 init_state = Ok (c, s') ∧
    contents s' c =
      Some (VObj <$> terrains,
            place_tokens (VObj <$> terrains) (VNum <$> tokens) (seq 0 19) 0
              (replicate 19 (VNum 0))) ∧
    draws s' = (draws init_state + 35 * 1001)%N ∧
    console s' = console init_state ++ [fallback_notice].
Proof.
  apply (generator_returns_every_invalid_board 0 1 init_state
           (VObj <$> terrains) (VNum <$> tokens)).
  - apply tables_at_init.
  - done.
  - done.
  - apply all_valid_tables.
Defined.

(** X11: a board that passed validation can carry two red tokens on
    hexes that share an edge.  From every state with the tables in place
    there is a random source in [[0,1)] on which the generator accepts
    its first attempt (no warning) and returns a board with an 8 on
    position 8 and a 6 on position 12, both non-Desert: the hexes 8 and
    12 touch on the 3-4-5-4-3 grid, but neither is in the other's list
    of the adjacency table. *)
Theorem validated_board_with_touching_reds tr kr s :
  tables_at s tr kr →
  ∃ rng c s' T A, unit_range rng ∧
    generateValidAssignment rng tr kr s = Ok (c, s') ∧
    attempt_loop rng tr kr maxAttempts s = Ok (Some c, s') ∧
    console s' = console s ∧
    contents s' c = Some (T, A) ∧
    shares_edge 8 12 = true ∧
    non_desert T 8 ∧ non_desert T 12 ∧ holds A 8 8 ∧ holds A 12 6.
Proof.
  intros Hs.
  pose proof fits_draws_terrains_8_12 as H1.
  pose proof fits_draws_tokens_8_12 as H2.
  destruct (generateValidAssignment_periodic tr kr s _ _ Hs H1 H2)
    as (c & s' & Hg & Hc & Hok & _).
  destruct (Hok all_valid_8_12) as (Hloop & Hd & Hcon).
  exists (rng_periodic (draws s) draws_terrains_8_12 draws_tokens_8_12), c, s'.
  eexists _, _. split; [by apply rng_periodic_range|].
  split; [done|]. split; [done|]. split; [done|]. split; [exact Hc|].
  split; [by vm_compute|].
  split; [exists "Wood"; split; [by exists Wood|done]|].
  split; [exists "Sheep"; split; [by exists Sheep|done]|].
  split; by vm_compute.
Qed.

Lemma validated_board_with_touching_reds_witness :
  ∃ rng c s' T A, unit_range rng ∧
    generateValidAssignment rng 0 1 init_state = Ok (c, s') ∧
    attempt_loop rng 0 1 maxAttempts init_state = Ok (Some c, s') ∧
    console s' = console init_state ∧
    contents s' c = Some (T, A) ∧
    shares_edge 8 12 = true ∧
    non_desert T 8 ∧ non_desert T 12 ∧ holds A 8 8 ∧ holds A 12 6.
Proof.
  apply (validated_board_with_touching_reds 0 1 init_state).
  apply tables_at_init.
Defined.

(** ** The red rule of the specification on a validated board *)

(** C1: a board returned through the validation path need not keep the
    red rule of the specification.  With the draws that select the
    indices [draws_terrains_8_12] and [draws_tokens_8_12] the first
    attempt is accepted (nothing is written on the console) and the
    generator returns the board below.  On it no terrain type has two
    6s, two 8s or two tokens among 2, 3 and 12, and no red token has a
    red neighbour in the lists of [adjacencyMap]; but position 8 (Wood)
    holds 8 and position 12 (Sheep) holds 6, and the hexes 8 and 12 share
    an edge: a position holding 6 or 8 has a non-Desert neighbour holding
    6 or 8. *)
Theorem validated_assignment_breaks_red_rule :
  unit_range (rng_periodic 0 draws_terrains_8_12 draws_tokens_8_12) ∧
  ∃ c s' T A,
    attempt_loop (rng_periodic 0 draws_terrains_8_12 draws_tokens_8_12)
      0 1 maxAttempts init_state = Ok (Some c, s') ∧
    generateValidAssignment
      (rng_periodic 0 draws_terrains_8_12 draws_tokens_8_12)
      0 1 init_state = Ok (c, s') ∧
    console s' = [] ∧
    contents s' c = Some (T, A) ∧
    board_names T =
      ["Brick"; "Wheat"; "Sheep"; "Wheat"; "Ore"; "Wheat"; "Desert";
       "Sheep"; "Wood"; "Brick"; "Wood"; "Sheep"; "Sheep"; "Wheat";
       "Brick"; "Wood"; "Ore"; "Wood"; "Ore"] ∧
    board_numbers A =
      [11; 8; 3; 12; 10; 5; 0; 9; 8; 2; 5; 4; 6; 10; 4; 3; 9; 11; 6]%Z ∧
    six_eight_once T A ∧ low_once T A ∧ red_apart_in_table T A ∧
    red A 8 ∧ shares_edge 8 12 = true ∧ non_desert T 12 ∧ red A 12 ∧
    ¬ red_apart T A.
Proof.
  pose proof fits_draws_terrains_8_12 as H1.
  pose proof fits_draws_tokens_8_12 as H2.
  split; [by apply rng_periodic_range|].
  destruct (generateValidAssignment_periodic 0 1 init_state _ _
              tables_at_init H1 H2) as (c & s' & Hg & Hc & Hok & _).
  destruct (Hok all_valid_8_12) as (Hloop & _ & Hcon).
  change (draws init_state) with 0%N in Hg, Hloop.
  exists c, s'. eexists _, _.
  split; [exact Hloop|]. split; [exact Hg|]. split; [exact Hcon|].
  split; [exact Hc|].
  split; [by vm_compute|]. split; [by vm_compute|].
  assert (Hfair :
    red_apart_in_table
      (shuffled_terrains (rng_periodic 0 draws_terrains_8_12 draws_tokens_8_12) 0)
      (token_assignments (rng_periodic 0 draws_terrains_8_12 draws_tokens_8_12) 0) ∧
    six_eight_once
      (shuffled_terrains (rng_periodic 0 draws_terrains_8_12 draws_tokens_8_12) 0)
      (token_assignments (rng_periodic 0 draws_terrains_8_12 draws_tokens_8_12) 0) ∧
    low_once
      (shuffled_terrains (rng_periodic 0 draws_terrains_8_12 draws_tokens_8_12) 0)
      (token_assignments (rng_periodic 0 draws_terrains_8_12 draws_tokens_8_12) 0)).
  { apply accepted_fair.
    pose proof (accepted_rng_periodic 0 _ _ 0 H1 H2) as Hacc.
    change (0 + 35 * N.of_nat 0)%N with 0%N in Hacc. rewrite Hacc.
    apply bool_decide_eq_true_2, all_valid_8_12. }
  destruct (board_rng_periodic 0 _ _ 0 H1 H2) as [ET EA].
  change (0 + 35 * N.of_nat 0)%N with 0%N in ET, EA.
  rewrite ET, EA in Hfair. destruct Hfair as (Htab & H68 & Hlow).
  split; [exact H68|]. split; [exact Hlow|]. split; [exact Htab|].
  assert (H8 : red (place_tokens
                      (fy_with draws_terrains_8_12 18 (VObj <$> terrains))
                      (fy_with draws_tokens_8_12 17 (VNum <$> tokens))
                      (seq 0 19) 0 (replicate 19 (VNum 0))) 8)
    by (right; by vm_compute).
  assert (H12 : red (place_tokens
                       (fy_with draws_terrains_8_12 18 (VObj <$> terrains))
                       (fy_with draws_tokens_8_12 17 (VNum <$> tokens))
                       (seq 0 19) 0 (replicate 19 (VNum 0))) 12)
    by (left; by vm_compute).
  assert (Hnd : non_desert
                  (fy_with draws_terrains_8_12 18 (VObj <$> terrains)) 12)
    by (exists "Sheep"; split;
        [exists Sheep; split; [by vm_compute|reflexivity]|done]).
  assert (Hse : shares_edge 8 12 = true) by (by vm_compute).
  split; [exact H8|]. split; [exact Hse|]. split; [exact Hnd|].
  split; [exact H12|].
  intros Hred. exact (Hred 8 12 H8 Hse Hnd H12).
Qed.

(** ** The entries handed to the renderer *)

Lemma row_entries_Forall2 (T A : list value) cs : ∀ n hs n',
  row_entries T A cs n = Ok (hs, n') →
  n' = n + length cs ∧
  Forall2 (λ ic h, hex_entry T A ic.2 ic.1 = Ok h)
    (zip (seq n (length cs)) cs) hs.
Proof.
  induction cs as [|c cs IH]; intros n hs n' Hr.
  { cbn in Hr. injection Hr as <- <-. split; [simpl; lia|constructor]. }
  cbn [row_entries] in Hr.
  destruct (hex_entry T A c n) as [h|e] eqn:Hh; [|done].
  cbv [mbind result_bind] in Hr.
  destruct (row_entries T A cs (S n)) as [[hs' n'']|e] eqn:Hrow; [|done].
  cbn [fst snd] in Hr. injection Hr as <- <-.
  destruct (IH _ _ _ Hrow) as [-> HF].
  split; [simpl; lia|]. cbn [length seq zip zip_with]. by constructor.
Qed.

Lemma row_entries_total (T A : list value) cs : ∀ n,
  (∀ i, n ≤ i < n + length cs → ∃ t, T !! i = Some (VObj t)) →
  ∃ hs, row_entries T A cs n = Ok (hs, n + length cs).
Proof.
  induction cs as [|c cs IH]; intros n HT.
  { exists []. cbn. by rewrite Nat.add_0_r. }
  destruct (HT n) as [t Ht]; [simpl; lia|].
  destruct (IH (S n)) as [hs Hhs].
  { intros i Hi. apply HT. simpl. lia. }
  eexists. cbn [row_entries]. unfold hex_entry. rewrite Ht.
  cbv [mbind result_bind]. rewrite Hhs. cbn [fst snd length].
  by replace (n + S (length cs)) with (S n + length cs) by lia.
Qed.

Lemma row_entries_app (T A : list value) c1 c2 : ∀ n,
  row_entries T A (c1 ++ c2) n =
    r1 ← row_entries T A c1 n;
    r2 ← row_entries T A c2 r1.2;
    Ok (r1.1 ++ r2.1, r2.2).
Proof.
  induction c1 as [|c c1 IH]; intros n.
  { cbn. by destruct (row_entries T A c2 n) as [[]|]. }
  cbn [app row_entries].
  destruct (hex_entry T A c n) as [h|e]; [|done].
  cbv [mbind result_bind]. rewrite IH. cbv [mbind result_bind].
  destruct (row_entries T A c1 (S n)) as [[hs1 n1]|e]; [|done].
  cbn [fst snd].
  by destruct (row_entries T A c2 n1) as [[hs2 n2]|e].
Qed.

Lemma rows_entries_concat (T A : list value) rows : ∀ n,
  rows_entries T A rows n = r ← row_entries T A (concat rows) n; Ok r.1.
Proof.
  induction rows as [|row rows IH]; intros n; [done|].
  cbn [rows_entries concat]. rewrite row_entries_app.
  cbv [mbind result_bind].
  destruct (row_entries T A row n) as [[hs1 n1]|e]; [|done].
  cbn [fst snd]. rewrite IH. cbv [mbind result_bind].
  by destruct (row_entries T A (concat rows) n1) as [[hs2 n2]|e].
Qed.

Lemma length_hexCentres : length hexCentres = 19.
Proof. reflexivity. Qed.

(** On a board of terrain objects the loop pushes one entry per position,
    each built from the centre, the terrain and the token of its
    position. *)
Lemma positions_Ok (T A : list value) :
  all_objects T →
  ∃ hs, positions T A = Ok hs ∧
    Forall2 (λ ic h, hex_entry T A ic.2 ic.1 = Ok h)
      (zip (seq 0 19) hexCentres) hs.
Proof.
  intros HT. unfold positions. rewrite rows_entries_concat.
  fold hexCentres.
  destruct (row_entries_total T A hexCentres 0) as [hs Hhs].
  { intros i Hi. apply HT. rewrite length_hexCentres in Hi. lia. }
  exists hs. rewrite Hhs. split; [done|].
  destruct (row_entries_Forall2 T A _ _ _ _ Hhs) as [_ HF].
  by rewrite length_hexCentres in HF.
Qed.

Lemma Forall2_fmap_eq {X Y Z} (R : X → Y → Prop) (f : X → Z) (g : Y → Z) l1 l2 :
  Forall2 R l1 l2 → (∀ x y, x ∈ l1 → R x y → f x = g y) → f <$> l1 = g <$> l2.
Proof.
  induction 1 as [|x y l1 l2 HR _ IH]; intros Hfg; [done|].
  rewrite !fmap_cons. f_equal.
  - apply Hfg; [left|done].
  - apply IH. intros x' y' Hx'. apply Hfg. by right.
Qed.


Lemma fmap_seq_lookup {X Y} (g : option X → Y) (l : list X) :
  (λ i, g (l !! i)) <$> seq 0 (length l) = (λ x, g (Some x)) <$> l.
Proof.
  apply list_eq. intros i. rewrite !list_lookup_fmap.
  destruct (decide (i < length l)) as [Hi|Hi].
  - rewrite lookup_seq_lt by done.
    destruct (lookup_lt_is_Some_2 l i Hi) as [x Hx]. cbn. by rewrite Hx.
  - rewrite lookup_seq_ge by lia. by rewrite lookup_ge_None_2 by lia.
Qed.


Lemma getHexPositions_any rng s :
  getHexPositions rng s =
    generateValidAssignment rng (length (heap s)) (S (length (heap s)))
      (set_heap (heap s ++ [VObj <$> terrains; VNum <$> tokens]) s).
Proof.
  unfold getHexPositions.
  rewrite (bind_Ok (array_alloc (VObj <$> terrains)) _ s (length (heap s))
             (set_heap (heap s ++ [VObj <$> terrains]) s)) by reflexivity.
  rewrite (bind_Ok (array_alloc (VNum <$> tokens)) _ _ (S (length (heap s)))
             (set_heap (heap s ++ [VObj <$> terrains; VNum <$> tokens]) s)).
  - done.
  - unfold array_alloc, set_heap. cbn [heap draws console].
    rewrite length_app. cbn [length]. rewrite <- app_assoc.
    by replace (length (heap s) + 1) with (S (length (heap s))) by lia.
Qed.

Lemma tables_at_fresh s :
  tables_at (set_heap (heap s ++ [VObj <$> terrains; VNum <$> tokens]) s)
    (length (heap s)) (S (length (heap s))).
Proof.
  unfold tables_at, set_heap. cbn [heap]. split.
  - rewrite lookup_app_r by lia. by rewrite Nat.sub_diag.
  - rewrite lookup_app_r by lia.
    by replace (S (length (heap s)) - length (heap s)) with 1 by lia.
Qed.

Lemma contents_Some s c T A :
  contents s c = Some (T, A) → heap s !! c.1 = Some T ∧ heap s !! c.2 = Some A.
Proof.
  unfold contents. destruct (heap s !! c.1) as [t|]; [|done].
  destruct (heap s !! c.2) as [k|]; [|done].
  cbn. by intros [= -> ->].
Qed.

(** The run of [hexData]: the entries of the board the generator
    returns. *)
Lemma hexData_Ok rng s :
  unit_range rng →
  ∃ k hs s',
    hexData rng s = Ok (hs, s') ∧
    Forall2 (λ ic h, hex_entry (shuffled_terrains rng k)
                       (token_assignments rng k) ic.2 ic.1 = Ok h)
      (zip (seq 0 19) hexCentres) hs.
Proof.
  intros Hr.
  pose proof (generateValidAssignment_Ok rng Hr _ _ _ (tables_at_fresh s)) as Hg.
  rewrite <- getHexPositions_any in Hg.
  remember (set_heap (heap s ++ [VObj <$> terrains; VNum <$> tokens]) s) as s0.
  remember (State (heap s0 ++ attempts_arrays rng (draws s0)
                      (candidates_made rng (draws s0)))
                  (draws s0 + 35 * N.of_nat (candidates_made rng (draws s0)))
                  (console s0 ++ notices rng (draws s0))) as s1 eqn:Hs1.
  remember (candidate_refs (length (heap s0))
              (default maxAttempts (first_accepted rng (draws s0) maxAttempts)))
    as c eqn:Hc.
  assert (Hcont : contents s1 c = Some (board rng (result_cursor rng (draws s0)))).
  { rewrite Hs1, Hc. apply contents_result. }
  apply contents_Some in Hcont as [HT HA].
  destruct (positions_Ok (shuffled_terrains rng (result_cursor rng (draws s0)))
              (token_assignments rng (result_cursor rng (draws s0)))
              (shuffled_terrains_objects _ _)) as (hs & Hp & HF).
  exists (result_cursor rng (draws s0)), hs, s1. split; [|done].
  unfold hexData. mstep Hg.
  rewrite (bind_Ok (array_read c.1) _ s1 _ s1)
    by (unfold array_read; by rewrite HT).
  rewrite (bind_Ok (array_read c.2) _ s1 _ s1)
    by (unfold array_read; by rewrite HA).
  unfold lift. by rewrite Hp.
Qed.

Lemma hex_entry_inv (T A : list value) c i h :
  hex_entry T A c i = Ok h →
  ∃ t, T !! i = Some (VObj t) ∧
    h = HexDatum c (color t) (bool_decide (name t = "Desert")) (A !! i)
          (texture t).
Proof.
  unfold hex_entry. destruct (T !! i) as [[n|t]|]; try done.
  intros [= <-]. by exists t.
Qed.





(** The terrain data of the entries, read off the terrain array. *)
Lemma entries_terrains (T A : list value) hs :
  length T = 19 →
  Forall2 (λ ic h, hex_entry T A ic.2 ic.1 = Ok h)
    (zip (seq 0 19) hexCentres) hs →
  (λ h, (hex_color h, isDesert h, texturePath h)) <$> hs =
    (λ v, match v with
          | VObj t => (color t, bool_decide (name t = "Desert"), texture t)
          | VNum _ => (0%Z, false, "")
          end) <$> T.
Proof.
  intros Hlen HF.
  rewrite <- (fmap_seq_lookup
    (λ o, match o with
          | Some (VObj t) => (color t, bool_decide (name t = "Desert"), texture t)
          | _ => (0%Z, false, "")
          end) T).
  rewrite Hlen.
  rewrite <- (fst_zip (seq 0 19) hexCentres)
    by (by rewrite length_seq, length_hexCentres).
  rewrite <- list_fmap_compose. symmetry.
  apply (Forall2_fmap_eq _ _ _ _ _ HF).
  intros [i c] h _ Hh. unfold compose. cbn [fst snd] in Hh |- *.
  destruct (hex_entry_inv _ _ _ _ _ Hh) as (t & Ht & ->).
  by rewrite Ht.
Qed.





Lemma terrains_one_desert :
  length (filter (λ x : Z * bool * string, x.1.2 = true)
    ((λ t, (color t, bool_decide (name t = "Desert"), texture t)) <$> terrains))
  = 1.
Proof. reflexivity. Qed.

(** X12: for every random source in [[0,1)] and from every state,
    [getHexPositions] returns 19 entries, the entry of position [i]
    sitting at the [i]-th centre of the 3-4-5-4-3 grid; the colours,
    Desert flags and textures of the entries are those of the terrain
    table in some order, and exactly one entry is flagged as Desert. *)
Theorem hexData_layout rng s :
  unit_range rng →
  ∃ hs s', hexData rng s = Ok (hs, s') ∧
    length hs = 19 ∧
    pos <$> hs = hexCentres ∧
    (λ h, (hex_color h, isDesert h, texturePath h)) <$> hs ≡ₚ
      (λ t, (color t, bool_decide (name t = "Desert"), texture t))
        <$> terrains ∧
    length (filter (λ h, isDesert h = true) hs) = 1.
Proof.
  intros Hr. destruct (hexData_Ok rng s Hr) as (k & hs & s' & Hrun & HF).
  exists hs, s'. split; [done|].
  assert (Hperm : (λ h, (hex_color h, isDesert h, texturePath h)) <$> hs ≡ₚ
      (λ t, (color t, bool_decide (name t = "Desert"), texture t))
        <$> terrains).
  { rewrite (entries_terrains _ _ _ (length_shuffled_terrains rng k) HF).
    rewrite shuffled_terrains_Permutation.
    by rewrite <- list_fmap_compose. }
  split.
  { apply Forall2_length in HF. rewrite <- HF, length_zip, length_seq.
    rewrite length_hexCentres. lia. }
  split.
  { rewrite <- (snd_zip (seq 0 19) hexCentres) at 1
      by (by rewrite length_seq, length_hexCentres).
    symmetry. apply (Forall2_fmap_eq _ _ _ _ _ HF).
    intros [i c] h _ Hh. cbn [fst snd] in Hh |- *.
    by destruct (hex_entry_inv _ _ _ _ _ Hh) as (t & _ & ->). }
  split; [done|].
  rewrite <- terrains_one_desert, <- Hperm.
  by rewrite (length_filter_fmap
    (λ h, (hex_color h, isDesert h, texturePath h))
    (λ x : Z * bool * string, x.1.2 = true)).
Qed.

Lemma hexData_layout_witness :
  ∃ hs s', hexData rng_zero empty_state = Ok (hs, s') ∧
    length hs = 19 ∧
    pos <$> hs = hexCentres ∧
    (λ h, (hex_color h, isDesert h, texturePath h)) <$> hs ≡ₚ
      (λ t, (color t, bool_decide (name t = "Desert"), texture t))
        <$> terrains ∧
    length (filter (λ h, isDesert h = true) hs) = 1.
Proof. apply (hexData_layout rng_zero empty_state). apply rng_zero_range. Defined.



(** ** The row of probability markers and the rows of the grid *)

Lemma tokens_range n : n ∈ tokens → (2 ≤ n ≤ 12)%Z ∧ n ≠ 7%Z.
Proof.
  assert (H : Forall (λ n, (2 ≤ n ≤ 12)%Z ∧ n ≠ 7%Z) tokens).
  { unfold tokens. repeat constructor; lia. }
  rewrite Forall_forall in H. apply H.
Qed.

Lemma marker_offsets_lookup n i x :
  marker_offsets n !! i = Some x ↔
  i < Z.to_nat (dotCount n) ∧ x = (- (dotCount n - 1) + 2 * Z.of_nat i)%Z.
Proof.
  unfold marker_offsets. rewrite list_lookup_fmap. split.
  - intros H. apply fmap_Some in H as (j & Hj & ->).
    apply lookup_seq in Hj as [-> Hlt]. by split.
  - intros [Hlt ->]. by rewrite lookup_seq_lt.
Qed.

(** X14: the row of probability markers under a number.  For every
    number the row has [dotCount] markers (none when that is not
    positive), two half-spacings apart and placed symmetrically about the
    middle of the token.  Every token of the table gets between one and
    five markers, none further than four half-spacings from the middle;
    no marker is drawn exactly for the numbers up to 1 and from 13 on,
    among them the 0 of the Desert. *)
Theorem marker_row_centred (n : Z) :
  length (marker_offsets n) = Z.to_nat (dotCount n) ∧
  (∀ i x, marker_offsets n !! i = Some x →
     marker_offsets n !! (length (marker_offsets n) - 1 - i) = Some (- x)%Z) ∧
  (∀ i x y, marker_offsets n !! i = Some x →
     marker_offsets n !! S i = Some y → y = (x + 2)%Z) ∧
  (n ∈ tokens →
     1 ≤ length (marker_offsets n) ≤ 5 ∧
     ∀ x, x ∈ marker_offsets n → (-4 ≤ x ≤ 4)%Z) ∧
  (marker_offsets n = [] ↔ (n ≤ 1 ∨ 13 ≤ n)%Z).
Proof.
  assert (Hlen : length (marker_offsets n) = Z.to_nat (dotCount n)).
  { unfold marker_offsets. by rewrite length_fmap, length_seq. }
  split; [done|]. split.
  { intros i x Hx. apply marker_offsets_lookup in Hx as [Hi ->].
    apply marker_offsets_lookup. rewrite Hlen. split; lia. }
  split.
  { intros i x y Hx Hy.
    apply marker_offsets_lookup in Hx as [_ ->].
    apply marker_offsets_lookup in Hy as [_ ->]. lia. }
  split.
  { intros Hn. apply tokens_range in Hn.
    rewrite Hlen. split; [unfold dotCount; lia|].
    intros x Hx. apply list_elem_of_lookup_1 in Hx as [i Hi].
    apply marker_offsets_lookup in Hi as [Hi ->].
    unfold dotCount in *. lia. }
  rewrite <- length_zero_iff_nil, Hlen. unfold dotCount. lia.
Qed.



